(** * The record store, the chat relay and the request handlers

    A shallow embedding of [server/storage.ts] (class [MemStorage]) and of
    the route module that registers the WebSocket relay and the HTTP
    handlers, with the properties the specification states about them.

    Conventions.
    - A [Date] is its [getTime()] value, an integer number of milliseconds.
    - A value of TypeScript type [any] (a parsed request body, a [jsonb]
      column) is a [json] tree; [undefined] is [None] of [option json].
      Numbers are integers of [Z]: the numbers these handlers compute with
      are option indices, counts and lengths.
    - A JavaScript [Map] keeps insertion order: it is an association list
      with at most one entry per key.
    - [randomUUID()], [new Date()], [JSON.parse] and the two provider SDKs
      are the platform: a [Platform] record supplies their results. *)

From Stdlib Require Import List ZArith Bool String Ascii Lia Permutation Sorted.
From Stdlib Require Import DecimalString.
Import ListNotations.
Local Open Scope string_scope.
Local Open Scope Z_scope.

Set Implicit Arguments.
Set Warnings "-register-all".

(* ================================================================= *)
(** ** JavaScript values *)

Inductive json : Type :=
| JNull
| JBool (b : bool)
| JNum (n : Z)
| JStr (s : string)
| JArr (items : list json)
| JObj (fields : list (string * json)).

(** [any]: a JSON value or [undefined]. *)
Definition any := option json.
Definition undefined : any := None.

Definition Date := Z.

(** Exceptions carry the [message] of the thrown [Error]. *)
Inductive result (A : Type) : Type :=
| Ok (a : A)
| Throw (message : string).
Arguments Ok {A} a.
Arguments Throw {A} message.

Definition is_primitive (v : json) : bool :=
  match v with
  | JArr _ | JObj _ => false
  | _ => true
  end.

(** [a === b].  Numbers, strings, booleans, [null] and [undefined] compare
    by value.  Arrays and objects compare by identity; in every comparison
    of this program one operand is a literal, a route parameter or a value
    just parsed from the request, so two composite operands are never the
    same object. *)
Definition strict_equals (a b : any) : bool :=
  match a, b with
  | None, None => true
  | Some JNull, Some JNull => true
  | Some (JBool x), Some (JBool y) => Bool.eqb x y
  | Some (JNum x), Some (JNum y) => Z.eqb x y
  | Some (JStr x), Some (JStr y) => String.eqb x y
  | _, _ => false
  end.

(** [!!v] *)
Definition truthy (v : any) : bool :=
  match v with
  | None | Some JNull | Some (JBool false) => false
  | Some (JNum n) => negb (Z.eqb n 0)
  | Some (JStr s) => negb (String.eqb s EmptyString)
  | _ => true
  end.

(** [a || b] on values. *)
Definition js_or (a b : any) : any := if truthy a then a else b.

Fixpoint assoc {V : Type} (k : string) (l : list (string * V)) : option V :=
  match l with
  | [] => None
  | (k', v) :: rest => if String.eqb k k' then Some v else assoc k rest
  end.

(** The message V8 puts in the [TypeError] of a property read on
    [undefined] or [null]. *)
Definition cannot_read (what : string) (key : string) : string :=
  "Cannot read properties of " ++ what ++ " (reading '" ++ key ++ "')".

(** [v.key], for the keys this program reads ([type], [answers],
    [correctAnswer], ...), none of which is a member of a prototype: an
    object gives its own field, [null] and [undefined] throw, anything else
    gives [undefined]. *)
Definition get_prop (v : any) (key : string) : result any :=
  match v with
  | None => Throw (cannot_read "undefined" key)
  | Some JNull => Throw (cannot_read "null" key)
  | Some (JObj fields) => Ok (assoc key fields)
  | Some _ => Ok undefined
  end.

Definition string_of_nat (n : nat) : string :=
  NilZero.string_of_uint (Nat.to_uint n).

Definition string_of_Z (z : Z) : string :=
  NilZero.string_of_int (Z.to_int z).

(** [v[index]] for a number [index]: an array element, a one-character
    string, or an object's field named by the decimal index. *)
Definition get_index (v : any) (index : nat) : result any :=
  match v with
  | None => Throw (cannot_read "undefined" (string_of_nat index))
  | Some JNull => Throw (cannot_read "null" (string_of_nat index))
  | Some (JArr items) => Ok (nth_error items index)
  | Some (JStr s) =>
      Ok (match String.get index s with
          | Some c => Some (JStr (String c EmptyString))
          | None => undefined
          end)
  | Some (JObj fields) => Ok (assoc (string_of_nat index) fields)
  | Some _ => Ok undefined
  end.

(** [v.length] *)
Definition get_length (v : any) : result any :=
  match v with
  | None => Throw (cannot_read "undefined" "length")
  | Some JNull => Throw (cannot_read "null" "length")
  | Some (JArr items) => Ok (Some (JNum (Z.of_nat (List.length items))))
  | Some (JStr s) => Ok (Some (JNum (Z.of_nat (String.length s))))
  | Some (JObj fields) => Ok (assoc "length" fields)
  | Some _ => Ok undefined
  end.

(** [s.startsWith(p)] *)
Definition startsWith (s p : string) : bool := String.prefix p s.

(* ================================================================= *)
(** ** [Map<string, V>] *)

Fixpoint nodupb (l : list string) : bool :=
  match l with
  | [] => true
  | k :: rest => negb (existsb (String.eqb k) rest) && nodupb rest
  end.

Section JsMap.
Variable V : Type.

Definition JsMap := list (string * V).

Definition map_get (k : string) (m : JsMap) : option V := assoc k m.

Definition map_has (k : string) (m : JsMap) : bool :=
  match map_get k m with Some _ => true | None => false end.

Fixpoint map_replace (k : string) (v : V) (m : JsMap) : JsMap :=
  match m with
  | [] => []
  | (k', v') :: rest =>
      if String.eqb k k' then (k', v) :: rest
      else (k', v') :: map_replace k v rest
  end.

(** [m.set(k, v)]: an existing key keeps its place, a new one goes last. *)
Definition map_set (k : string) (v : V) (m : JsMap) : JsMap :=
  if map_has k m then map_replace k v m else (m ++ [(k, v)])%list.

(** [m.delete(k)] *)
Definition map_delete (k : string) (m : JsMap) : JsMap :=
  filter (fun e => negb (String.eqb k (fst e))) m.

(** [Array.from(m.keys())], [Array.from(m.values())] *)
Definition map_keys (m : JsMap) : list string := List.map fst m.
Definition map_values (m : JsMap) : list V := List.map snd m.

(** The body of the loop shared by the three cascading deletes:
    [key => { const x = m.get(key); if (doomed x) m.delete(key) }] *)
Definition delete_step (doomed : V -> bool) (acc : JsMap) (key : string)
  : JsMap :=
  match map_get key acc with
  | Some x => if doomed x then map_delete key acc else acc
  | None => acc
  end.

(** [Array.from(m.keys()).forEach(...)]: the loop, over a snapshot of the
    keys. *)
Definition delete_where (doomed : V -> bool) (m : JsMap) : JsMap :=
  fold_left (delete_step doomed) (map_keys m) m.

(** The entries the loop is meant to keep. *)
Definition survives (doomed : V -> bool) (e : string * V) : bool :=
  negb (doomed (snd e)).

(** One entry per key. *)
Definition map_ok (m : JsMap) : bool := nodupb (map_keys m).
End JsMap.

Arguments map_get {V} k m.
Arguments map_has {V} k m.
Arguments map_replace {V} k v m.
Arguments map_set {V} k v m.
Arguments map_delete {V} k m.
Arguments map_keys {V} m.
Arguments map_values {V} m.
Arguments delete_step {V} doomed acc key.
Arguments delete_where {V} doomed m.
Arguments survives {V} doomed e.
Arguments map_ok {V} m.

(* ================================================================= *)
(** ** The entities of [shared/schema.ts]

    Each table gives a select type, an insert type (the columns the insert
    schema keeps) and, where [MemStorage] has an update method, the
    [Partial<T>] of its payload: [None] is a key the payload does not
    carry.  A nullable column is an [option].  Columns that receive
    unvalidated request data at run time (the relay's [conversationId] and
    [content], the generated quiz's texts, every [jsonb] column) are [any]. *)

Module User.
Record t := mk
  { id : string; username : string; password : string;
    email : option string; avatar : option string;
    createdAt : option Date }.
Record insert := mkInsert
  { i_username : string; i_password : string;
    i_email : option string; i_avatar : option string }.
End User.

Module Conversation.
Record t := mk
  { id : string; userId : string; title : string; model : string;
    createdAt : option Date; updatedAt : option Date }.
Record insert := mkInsert
  { i_userId : string; i_title : string; i_model : string }.
Record partial := mkPartial
  { p_id : option string; p_userId : option string;
    p_title : option string; p_model : option string;
    p_createdAt : option (option Date);
    p_updatedAt : option (option Date) }.
End Conversation.

Module Message.
Record t := mk
  { id : string; conversationId : any; role : string; content : any;
    attachments : any; createdAt : option Date }.
Record insert := mkInsert
  { i_conversationId : any; i_role : string; i_content : any;
    i_attachments : any }.
End Message.

Module FlashcardSet.
Record t := mk
  { id : string; userId : string; title : string;
    description : option string; subject : option string;
    createdAt : option Date; updatedAt : option Date }.
Record insert := mkInsert
  { i_userId : string; i_title : string;
    i_description : option string; i_subject : option string }.
Record partial := mkPartial
  { p_id : option string; p_userId : option string;
    p_title : option string;
    p_description : option (option string);
    p_subject : option (option string);
    p_createdAt : option (option Date);
    p_updatedAt : option (option Date) }.
End FlashcardSet.

Module Flashcard.
Record t := mk
  { id : string; setId : string; front : string; back : string;
    difficulty : option Z; lastReviewed : option Date;
    reviewCount : option Z; masteryLevel : option Z;
    createdAt : option Date }.
Record insert := mkInsert
  { i_setId : string; i_front : string; i_back : string;
    i_difficulty : option Z }.
Record partial := mkPartial
  { p_id : option string; p_setId : option string;
    p_front : option string; p_back : option string;
    p_difficulty : option (option Z);
    p_lastReviewed : option (option Date);
    p_reviewCount : option (option Z);
    p_masteryLevel : option (option Z);
    p_createdAt : option (option Date) }.
End Flashcard.

Module Note.
Record t := mk
  { id : string; userId : string; title : string; content : string;
    subject : option string; tags : option (list string);
    createdAt : option Date; updatedAt : option Date }.
Record insert := mkInsert
  { i_userId : string; i_title : string; i_content : string;
    i_subject : option string; i_tags : option (list string) }.
Record partial := mkPartial
  { p_id : option string; p_userId : option string;
    p_title : option string; p_content : option string;
    p_subject : option (option string);
    p_tags : option (option (list string));
    p_createdAt : option (option Date);
    p_updatedAt : option (option Date) }.
End Note.

Module Quiz.
Record t := mk
  { id : string; userId : string; title : any; subject : any;
    difficulty : any; questions : any; createdAt : option Date }.
Record insert := mkInsert
  { i_userId : string; i_title : any; i_subject : any;
    i_difficulty : any; i_questions : any }.
End Quiz.

Module QuizAttempt.
Record t := mk
  { id : string; quizId : string; userId : string; answers : any;
    score : Z; totalQuestions : any; completedAt : option Date }.
Record insert := mkInsert
  { i_quizId : string; i_userId : string; i_answers : any;
    i_score : Z; i_totalQuestions : any }.
End QuizAttempt.

Module VideoGeneration.
Record t := mk
  { id : string; userId : string; prompt : string; duration : Z;
    style : string; aspectRatio : string; status : string;
    videoUrl : option string; thumbnailUrl : option string;
    createdAt : option Date; completedAt : option Date }.
Record insert := mkInsert
  { i_userId : string; i_prompt : string; i_duration : Z;
    i_style : string; i_aspectRatio : string }.
Record partial := mkPartial
  { p_id : option string; p_userId : option string;
    p_prompt : option string; p_duration : option Z;
    p_style : option string; p_aspectRatio : option string;
    p_status : option string;
    p_videoUrl : option (option string);
    p_thumbnailUrl : option (option string);
    p_createdAt : option (option Date);
    p_completedAt : option (option Date) }.
End VideoGeneration.

(** One field of [{ ...existing, ...updates }]. *)
Definition spread {A : Type} (existing : A) (update : option A) : A :=
  match update with
  | Some v => v
  | None => existing
  end.

(* ================================================================= *)
(** ** Exceptions and [Array.prototype.sort] *)

Definition bindR {A B : Type} (r : result A) (k : A -> result B) : result B :=
  match r with
  | Ok a => k a
  | Throw e => Throw e
  end.

Notation "'let*' x ':=' r 'in' k" := (bindR r (fun x => k))
  (at level 10, x name, r at level 100, k at level 200).

(** [d!.getTime()] *)
Definition getTime (d : option Date) : result Z :=
  match d with
  | Some t => Ok t
  | None => Throw (cannot_read "null" "getTime")
  end.

(** [updatedAt || createdAt]: a [Date] object is always truthy. *)
Definition or_date (updatedAt createdAt : option Date) : option Date :=
  match updatedAt with
  | Some t => Some t
  | None => createdAt
  end.

Section ArraySort.
Variable A : Type.
Variable compareFn : A -> A -> result Z.

(** [array.sort(compareFn)] is stable: of two elements the comparator
    does not order, the one that came first stays first.  An insertion
    sort from the right has that behaviour; [x] is placed in front of
    the sorted remainder and moves behind [y] only when
    [compareFn(x, y) > 0].  Every element of an array of two or more is
    compared at least once, so a comparator that throws on some element
    makes the sort throw, as it does in the engine. *)
Fixpoint sort_insert (x : A) (sorted : list A) : result (list A) :=
  match sorted with
  | [] => Ok [x]
  | y :: rest =>
      let* c := compareFn x y in
      if c >? 0
      then let* placed := sort_insert x rest in Ok (y :: placed)
      else Ok (x :: sorted)
  end.

Fixpoint array_sort (l : list A) : result (list A) :=
  match l with
  | [] => Ok []
  | x :: rest => let* sorted := array_sort rest in sort_insert x sorted
  end.
End ArraySort.

(** [(a, b) => key(b)!.getTime() - key(a)!.getTime()] *)
Definition newest_first {A : Type} (key : A -> option Date) (a b : A)
  : result Z :=
  let* tb := getTime (key b) in
  let* ta := getTime (key a) in
  Ok (tb - ta).

(** [(a, b) => key(a)!.getTime() - key(b)!.getTime()] *)
Definition oldest_first {A : Type} (key : A -> option Date) (a b : A)
  : result Z :=
  let* ta := getTime (key a) in
  let* tb := getTime (key b) in
  Ok (ta - tb).

(* ================================================================= *)
(** ** [MemStorage] *)

Record MemStorage := mkStore
  { users : JsMap User.t;
    conversations : JsMap Conversation.t;
    messages : JsMap Message.t;
    flashcardSets : JsMap FlashcardSet.t;
    flashcards : JsMap Flashcard.t;
    notes : JsMap Note.t;
    quizzes : JsMap Quiz.t;
    quizAttempts : JsMap QuizAttempt.t;
    videoGenerations : JsMap VideoGeneration.t }.

Definition with_users m (st : MemStorage) : MemStorage :=
  mkStore m (conversations st) (messages st) (flashcardSets st)
    (flashcards st) (notes st) (quizzes st) (quizAttempts st)
    (videoGenerations st).
Definition with_conversations m (st : MemStorage) : MemStorage :=
  mkStore (users st) m (messages st) (flashcardSets st)
    (flashcards st) (notes st) (quizzes st) (quizAttempts st)
    (videoGenerations st).
Definition with_messages m (st : MemStorage) : MemStorage :=
  mkStore (users st) (conversations st) m (flashcardSets st)
    (flashcards st) (notes st) (quizzes st) (quizAttempts st)
    (videoGenerations st).
Definition with_flashcardSets m (st : MemStorage) : MemStorage :=
  mkStore (users st) (conversations st) (messages st) m
    (flashcards st) (notes st) (quizzes st) (quizAttempts st)
    (videoGenerations st).
Definition with_flashcards m (st : MemStorage) : MemStorage :=
  mkStore (users st) (conversations st) (messages st) (flashcardSets st)
    m (notes st) (quizzes st) (quizAttempts st) (videoGenerations st).
Definition with_notes m (st : MemStorage) : MemStorage :=
  mkStore (users st) (conversations st) (messages st) (flashcardSets st)
    (flashcards st) m (quizzes st) (quizAttempts st) (videoGenerations st).
Definition with_quizzes m (st : MemStorage) : MemStorage :=
  mkStore (users st) (conversations st) (messages st) (flashcardSets st)
    (flashcards st) (notes st) m (quizAttempts st) (videoGenerations st).
Definition with_quizAttempts m (st : MemStorage) : MemStorage :=
  mkStore (users st) (conversations st) (messages st) (flashcardSets st)
    (flashcards st) (notes st) (quizzes st) m (videoGenerations st).
Definition with_videoGenerations m (st : MemStorage) : MemStorage :=
  mkStore (users st) (conversations st) (messages st) (flashcardSets st)
    (flashcards st) (notes st) (quizzes st) (quizAttempts st) m.

(** In the methods below [id] is the result of the method's
    [randomUUID()] and [now] that of its [new Date()]. *)

(** The constructor: one demo user. *)
Definition MemStorage_new (now : Date) : MemStorage :=
  let defaultUser :=
    User.mk "default-user" "demo" "demo" (Some "demo@nexusai.com") None
      (Some now) in
  mkStore [(User.id defaultUser, defaultUser)] [] [] [] [] [] [] [] [].

Definition getUser (id : string) (st : MemStorage) : option User.t :=
  map_get id (users st).

Definition getUserByUsername (username : string) (st : MemStorage)
  : option User.t :=
  find (fun user => String.eqb (User.username user) username)
    (map_values (users st)).

Definition createUser (id : string) (now : Date) (insertUser : User.insert)
    (st : MemStorage) : MemStorage * User.t :=
  let user :=
    User.mk id (User.i_username insertUser) (User.i_password insertUser)
      (User.i_email insertUser) (User.i_avatar insertUser) (Some now) in
  (with_users (map_set id user (users st)) st, user).

(** *** Conversations *)

Definition conversation_instant (c : Conversation.t) : option Date :=
  or_date (Conversation.updatedAt c) (Conversation.createdAt c).

Definition getUserConversations (userId : string) (st : MemStorage)
  : result (list Conversation.t) :=
  array_sort (newest_first conversation_instant)
    (filter (fun conv => String.eqb (Conversation.userId conv) userId)
       (map_values (conversations st))).

Definition getConversation (id : string) (st : MemStorage)
  : option Conversation.t :=
  map_get id (conversations st).

Definition createConversation (id : string) (now : Date)
    (insertConversation : Conversation.insert) (st : MemStorage)
  : MemStorage * Conversation.t :=
  let conversation :=
    Conversation.mk id
      (Conversation.i_userId insertConversation)
      (Conversation.i_title insertConversation)
      (Conversation.i_model insertConversation)
      (Some now) (Some now) in
  (with_conversations (map_set id conversation (conversations st)) st,
   conversation).

Definition updateConversation (now : Date) (id : string)
    (updates : Conversation.partial) (st : MemStorage)
  : result (MemStorage * Conversation.t) :=
  match map_get id (conversations st) with
  | None => Throw "Conversation not found"
  | Some existing =>
      let updated :=
        Conversation.mk
          (spread (Conversation.id existing) (Conversation.p_id updates))
          (spread (Conversation.userId existing)
             (Conversation.p_userId updates))
          (spread (Conversation.title existing)
             (Conversation.p_title updates))
          (spread (Conversation.model existing)
             (Conversation.p_model updates))
          (spread (Conversation.createdAt existing)
             (Conversation.p_createdAt updates))
          (Some now) in
      Ok (with_conversations (map_set id updated (conversations st)) st,
          updated)
  end.

Definition deleteConversation (id : string) (st : MemStorage) : MemStorage :=
  let st1 := with_conversations (map_delete id (conversations st)) st in
  with_messages
    (delete_where
       (fun message =>
          strict_equals (Message.conversationId message) (Some (JStr id)))
       (messages st1))
    st1.

(** *** Messages *)

Definition getConversationMessages (conversationId : string)
    (st : MemStorage) : result (list Message.t) :=
  array_sort (oldest_first Message.createdAt)
    (filter
       (fun msg =>
          strict_equals (Message.conversationId msg)
            (Some (JStr conversationId)))
       (map_values (messages st))).

Definition createMessage (id : string) (now : Date)
    (insertMessage : Message.insert) (st : MemStorage)
  : MemStorage * Message.t :=
  let message :=
    Message.mk id
      (Message.i_conversationId insertMessage)
      (Message.i_role insertMessage)
      (Message.i_content insertMessage)
      (Message.i_attachments insertMessage)
      (Some now) in
  (with_messages (map_set id message (messages st)) st, message).

(** *** Flashcard sets and flashcards *)

Definition flashcardSet_instant (s : FlashcardSet.t) : option Date :=
  or_date (FlashcardSet.updatedAt s) (FlashcardSet.createdAt s).

Definition getUserFlashcardSets (userId : string) (st : MemStorage)
  : result (list FlashcardSet.t) :=
  array_sort (newest_first flashcardSet_instant)
    (filter (fun set => String.eqb (FlashcardSet.userId set) userId)
       (map_values (flashcardSets st))).

Definition getFlashcardSet (id : string) (st : MemStorage)
  : option FlashcardSet.t :=
  map_get id (flashcardSets st).

Definition createFlashcardSet (id : string) (now : Date)
    (insertSet : FlashcardSet.insert) (st : MemStorage)
  : MemStorage * FlashcardSet.t :=
  let set :=
    FlashcardSet.mk id
      (FlashcardSet.i_userId insertSet)
      (FlashcardSet.i_title insertSet)
      (FlashcardSet.i_description insertSet)
      (FlashcardSet.i_subject insertSet)
      (Some now) (Some now) in
  (with_flashcardSets (map_set id set (flashcardSets st)) st, set).

Definition updateFlashcardSet (now : Date) (id : string)
    (updates : FlashcardSet.partial) (st : MemStorage)
  : result (MemStorage * FlashcardSet.t) :=
  match map_get id (flashcardSets st) with
  | None => Throw "Flashcard set not found"
  | Some existing =>
      let updated :=
        FlashcardSet.mk
          (spread (FlashcardSet.id existing) (FlashcardSet.p_id updates))
          (spread (FlashcardSet.userId existing)
             (FlashcardSet.p_userId updates))
          (spread (FlashcardSet.title existing)
             (FlashcardSet.p_title updates))
          (spread (FlashcardSet.description existing)
             (FlashcardSet.p_description updates))
          (spread (FlashcardSet.subject existing)
             (FlashcardSet.p_subject updates))
          (spread (FlashcardSet.createdAt existing)
             (FlashcardSet.p_createdAt updates))
          (Some now) in
      Ok (with_flashcardSets (map_set id updated (flashcardSets st)) st,
          updated)
  end.

Definition deleteFlashcardSet (id : string) (st : MemStorage) : MemStorage :=
  let st1 := with_flashcardSets (map_delete id (flashcardSets st)) st in
  with_flashcards
    (delete_where (fun card => String.eqb (Flashcard.setId card) id)
       (flashcards st1))
    st1.

Definition getSetFlashcards (setId : string) (st : MemStorage)
  : result (list Flashcard.t) :=
  array_sort (oldest_first Flashcard.createdAt)
    (filter (fun card => String.eqb (Flashcard.setId card) setId)
       (map_values (flashcards st))).

(** [insertCard.difficulty || 1] *)
Definition difficulty_or_1 (d : option Z) : option Z :=
  match d with
  | Some n => if n =? 0 then Some 1 else Some n
  | None => Some 1
  end.

Definition createFlashcard (id : string) (now : Date)
    (insertCard : Flashcard.insert) (st : MemStorage)
  : MemStorage * Flashcard.t :=
  let card :=
    Flashcard.mk id
      (Flashcard.i_setId insertCard)
      (Flashcard.i_front insertCard)
      (Flashcard.i_back insertCard)
      (difficulty_or_1 (Flashcard.i_difficulty insertCard))
      None (Some 0) (Some 0) (Some now) in
  (with_flashcards (map_set id card (flashcards st)) st, card).

Definition updateFlashcard (id : string) (updates : Flashcard.partial)
    (st : MemStorage) : result (MemStorage * Flashcard.t) :=
  match map_get id (flashcards st) with
  | None => Throw "Flashcard not found"
  | Some existing =>
      let updated :=
        Flashcard.mk
          (spread (Flashcard.id existing) (Flashcard.p_id updates))
          (spread (Flashcard.setId existing) (Flashcard.p_setId updates))
          (spread (Flashcard.front existing) (Flashcard.p_front updates))
          (spread (Flashcard.back existing) (Flashcard.p_back updates))
          (spread (Flashcard.difficulty existing)
             (Flashcard.p_difficulty updates))
          (spread (Flashcard.lastReviewed existing)
             (Flashcard.p_lastReviewed updates))
          (spread (Flashcard.reviewCount existing)
             (Flashcard.p_reviewCount updates))
          (spread (Flashcard.masteryLevel existing)
             (Flashcard.p_masteryLevel updates))
          (spread (Flashcard.createdAt existing)
             (Flashcard.p_createdAt updates)) in
      Ok (with_flashcards (map_set id updated (flashcards st)) st, updated)
  end.

Definition deleteFlashcard (id : string) (st : MemStorage) : MemStorage :=
  with_flashcards (map_delete id (flashcards st)) st.

(** *** Notes *)

Definition note_instant (n : Note.t) : option Date :=
  or_date (Note.updatedAt n) (Note.createdAt n).

Definition getUserNotes (userId : string) (st : MemStorage)
  : result (list Note.t) :=
  array_sort (newest_first note_instant)
    (filter (fun note => String.eqb (Note.userId note) userId)
       (map_values (notes st))).

Definition getNote (id : string) (st : MemStorage) : option Note.t :=
  map_get id (notes st).

Definition createNote (id : string) (now : Date) (insertNote : Note.insert)
    (st : MemStorage) : MemStorage * Note.t :=
  let note :=
    Note.mk id
      (Note.i_userId insertNote) (Note.i_title insertNote)
      (Note.i_content insertNote) (Note.i_subject insertNote)
      (Note.i_tags insertNote) (Some now) (Some now) in
  (with_notes (map_set id note (notes st)) st, note).

Definition updateNote (now : Date) (id : string) (updates : Note.partial)
    (st : MemStorage) : result (MemStorage * Note.t) :=
  match map_get id (notes st) with
  | None => Throw "Note not found"
  | Some existing =>
      let updated :=
        Note.mk
          (spread (Note.id existing) (Note.p_id updates))
          (spread (Note.userId existing) (Note.p_userId updates))
          (spread (Note.title existing) (Note.p_title updates))
          (spread (Note.content existing) (Note.p_content updates))
          (spread (Note.subject existing) (Note.p_subject updates))
          (spread (Note.tags existing) (Note.p_tags updates))
          (spread (Note.createdAt existing) (Note.p_createdAt updates))
          (Some now) in
      Ok (with_notes (map_set id updated (notes st)) st, updated)
  end.

Definition deleteNote (id : string) (st : MemStorage) : MemStorage :=
  with_notes (map_delete id (notes st)) st.

(** *** Quizzes and attempts *)

Definition getUserQuizzes (userId : string) (st : MemStorage)
  : result (list Quiz.t) :=
  array_sort (newest_first Quiz.createdAt)
    (filter (fun quiz => String.eqb (Quiz.userId quiz) userId)
       (map_values (quizzes st))).

Definition getQuiz (id : string) (st : MemStorage) : option Quiz.t :=
  map_get id (quizzes st).

Definition createQuiz (id : string) (now : Date) (insertQuiz : Quiz.insert)
    (st : MemStorage) : MemStorage * Quiz.t :=
  let quiz :=
    Quiz.mk id
      (Quiz.i_userId insertQuiz) (Quiz.i_title insertQuiz)
      (Quiz.i_subject insertQuiz) (Quiz.i_difficulty insertQuiz)
      (Quiz.i_questions insertQuiz) (Some now) in
  (with_quizzes (map_set id quiz (quizzes st)) st, quiz).

Definition deleteQuiz (id : string) (st : MemStorage) : MemStorage :=
  let st1 := with_quizzes (map_delete id (quizzes st)) st in
  with_quizAttempts
    (delete_where (fun attempt => String.eqb (QuizAttempt.quizId attempt) id)
       (quizAttempts st1))
    st1.

Definition getQuizAttempts (quizId : string) (st : MemStorage)
  : result (list QuizAttempt.t) :=
  array_sort (newest_first QuizAttempt.completedAt)
    (filter (fun attempt => String.eqb (QuizAttempt.quizId attempt) quizId)
       (map_values (quizAttempts st))).

Definition getUserQuizAttempts (userId : string) (st : MemStorage)
  : result (list QuizAttempt.t) :=
  array_sort (newest_first QuizAttempt.completedAt)
    (filter (fun attempt => String.eqb (QuizAttempt.userId attempt) userId)
       (map_values (quizAttempts st))).

Definition createQuizAttempt (id : string) (now : Date)
    (insertAttempt : QuizAttempt.insert) (st : MemStorage)
  : MemStorage * QuizAttempt.t :=
  let attempt :=
    QuizAttempt.mk id
      (QuizAttempt.i_quizId insertAttempt)
      (QuizAttempt.i_userId insertAttempt)
      (QuizAttempt.i_answers insertAttempt)
      (QuizAttempt.i_score insertAttempt)
      (QuizAttempt.i_totalQuestions insertAttempt)
      (Some now) in
  (with_quizAttempts (map_set id attempt (quizAttempts st)) st, attempt).

(** *** Video generations *)

Definition getUserVideoGenerations (userId : string) (st : MemStorage)
  : result (list VideoGeneration.t) :=
  array_sort (newest_first VideoGeneration.createdAt)
    (filter (fun video => String.eqb (VideoGeneration.userId video) userId)
       (map_values (videoGenerations st))).

Definition getVideoGeneration (id : string) (st : MemStorage)
  : option VideoGeneration.t :=
  map_get id (videoGenerations st).

Definition createVideoGeneration (id : string) (now : Date)
    (insertVideo : VideoGeneration.insert) (st : MemStorage)
  : MemStorage * VideoGeneration.t :=
  let video :=
    VideoGeneration.mk id
      (VideoGeneration.i_userId insertVideo)
      (VideoGeneration.i_prompt insertVideo)
      (VideoGeneration.i_duration insertVideo)
      (VideoGeneration.i_style insertVideo)
      (VideoGeneration.i_aspectRatio insertVideo)
      "pending" None None (Some now) None in
  (with_videoGenerations (map_set id video (videoGenerations st)) st, video).

Definition updateVideoGeneration (id : string)
    (updates : VideoGeneration.partial) (st : MemStorage)
  : result (MemStorage * VideoGeneration.t) :=
  match map_get id (videoGenerations st) with
  | None => Throw "Video generation not found"
  | Some existing =>
      let updated :=
        VideoGeneration.mk
          (spread (VideoGeneration.id existing)
             (VideoGeneration.p_id updates))
          (spread (VideoGeneration.userId existing)
             (VideoGeneration.p_userId updates))
          (spread (VideoGeneration.prompt existing)
             (VideoGeneration.p_prompt updates))
          (spread (VideoGeneration.duration existing)
             (VideoGeneration.p_duration updates))
          (spread (VideoGeneration.style existing)
             (VideoGeneration.p_style updates))
          (spread (VideoGeneration.aspectRatio existing)
             (VideoGeneration.p_aspectRatio updates))
          (spread (VideoGeneration.status existing)
             (VideoGeneration.p_status updates))
          (spread (VideoGeneration.videoUrl existing)
             (VideoGeneration.p_videoUrl updates))
          (spread (VideoGeneration.thumbnailUrl existing)
             (VideoGeneration.p_thumbnailUrl updates))
          (spread (VideoGeneration.createdAt existing)
             (VideoGeneration.p_createdAt updates))
          (spread (VideoGeneration.completedAt existing)
             (VideoGeneration.p_completedAt updates)) in
      Ok (with_videoGenerations (map_set id updated (videoGenerations st)) st,
          updated)
  end.

(** *** The mutating methods as data

    Every write to the store goes through one of these calls; a history of
    the store is a list of them. *)

Inductive StorageOp : Type :=
| CreateUser (id : string) (now : Date) (insertUser : User.insert)
| CreateConversation (id : string) (now : Date) (ins : Conversation.insert)
| UpdateConversation (now : Date) (id : string) (u : Conversation.partial)
| DeleteConversation (id : string)
| CreateMessage (id : string) (now : Date) (ins : Message.insert)
| CreateFlashcardSet (id : string) (now : Date) (ins : FlashcardSet.insert)
| UpdateFlashcardSet (now : Date) (id : string) (u : FlashcardSet.partial)
| DeleteFlashcardSet (id : string)
| CreateFlashcard (id : string) (now : Date) (ins : Flashcard.insert)
| UpdateFlashcard (id : string) (u : Flashcard.partial)
| DeleteFlashcard (id : string)
| CreateNote (id : string) (now : Date) (ins : Note.insert)
| UpdateNote (now : Date) (id : string) (u : Note.partial)
| DeleteNote (id : string)
| CreateQuiz (id : string) (now : Date) (ins : Quiz.insert)
| DeleteQuiz (id : string)
| CreateQuizAttempt (id : string) (now : Date) (ins : QuizAttempt.insert)
| CreateVideoGeneration (id : string) (now : Date)
    (ins : VideoGeneration.insert)
| UpdateVideoGeneration (id : string) (u : VideoGeneration.partial).

(** The store an update leaves: a rejected update changes nothing. *)
Definition store_after {A : Type} (st : MemStorage)
    (r : result (MemStorage * A)) : MemStorage :=
  match r with
  | Ok (st', _) => st'
  | Throw _ => st
  end.

Definition run_op (op : StorageOp) (st : MemStorage) : MemStorage :=
  match op with
  | CreateUser id now ins => fst (createUser id now ins st)
  | CreateConversation id now ins => fst (createConversation id now ins st)
  | UpdateConversation now id u => store_after st (updateConversation now id u st)
  | DeleteConversation id => deleteConversation id st
  | CreateMessage id now ins => fst (createMessage id now ins st)
  | CreateFlashcardSet id now ins => fst (createFlashcardSet id now ins st)
  | UpdateFlashcardSet now id u => store_after st (updateFlashcardSet now id u st)
  | DeleteFlashcardSet id => deleteFlashcardSet id st
  | CreateFlashcard id now ins => fst (createFlashcard id now ins st)
  | UpdateFlashcard id u => store_after st (updateFlashcard id u st)
  | DeleteFlashcard id => deleteFlashcard id st
  | CreateNote id now ins => fst (createNote id now ins st)
  | UpdateNote now id u => store_after st (updateNote now id u st)
  | DeleteNote id => deleteNote id st
  | CreateQuiz id now ins => fst (createQuiz id now ins st)
  | DeleteQuiz id => deleteQuiz id st
  | CreateQuizAttempt id now ins => fst (createQuizAttempt id now ins st)
  | CreateVideoGeneration id now ins => fst (createVideoGeneration id now ins st)
  | UpdateVideoGeneration id u => store_after st (updateVideoGeneration id u st)
  end.

(** Left to right: the head of the list runs first. *)
Definition run_ops (ops : list StorageOp) (st : MemStorage) : MemStorage :=
  fold_left (fun acc op => run_op op acc) ops st.

(** The invariant of a store with a history: one entry per key in every
    map, and an instant to sort by on every record that a list-by-owner
    method sorts. *)
Definition has_instant {A : Type} (key : A -> option Date) (m : JsMap A)
  : bool :=
  forallb (fun r => match key r with Some _ => true | None => false end)
    (map_values m).

Definition store_ok (st : MemStorage) : bool :=
  map_ok (users st) && map_ok (conversations st) && map_ok (messages st)
  && map_ok (flashcardSets st) && map_ok (flashcards st)
  && map_ok (notes st) && map_ok (quizzes st) && map_ok (quizAttempts st)
  && map_ok (videoGenerations st)
  && has_instant conversation_instant (conversations st)
  && has_instant flashcardSet_instant (flashcardSets st)
  && has_instant note_instant (notes st)
  && has_instant Quiz.createdAt (quizzes st).

(* ================================================================= *)
(** ** The platform and the world the handlers run in *)

(** What a provider SDK call comes to: the text of the first choice
    ([null] when the reply carries none), or an exception, which also
    covers a reply without a first choice. *)
Inductive Outcome : Type :=
| Replied (content : option string)
| Failed (message : string).

Inductive Provider : Type := OpenAI | Anthropic.

(** A request to a provider: the single user message it carries. *)
Record ProviderCall := mkCall
  { provider : Provider; user_content : any }.

(** The [k]-th [randomUUID()], the [k]-th [new Date()], [JSON.parse], and
    the outcome of the [k]-th provider request. *)
Record Platform := mkPlatform
  { randomUUID : nat -> string;
    clock : nat -> Date;
    JSON_parse : string -> result json;
    provider_reply : nat -> ProviderCall -> Outcome }.

(** A frame the server sends on the socket, before [JSON.stringify]. *)
Inductive Frame : Type :=
| Typing (isTyping : bool)
| ChatMessage (message : Message.t)
| ErrorFrame (message : string).

Record World := mkWorld
  { storage : MemStorage;
    uuids_drawn : nat;
    dates_taken : nat;
    provider_calls : list ProviderCall;
    sent : list Frame;
    console : list string;
    timers : list string }.

Definition M (A : Type) : Type := World -> result A * World.

Definition ret {A : Type} (a : A) : M A := fun w => (Ok a, w).
Definition throw {A : Type} (e : string) : M A := fun w => (Throw e, w).
Definition bind {A B : Type} (c : M A) (k : A -> M B) : M B :=
  fun w =>
    match c w with
    | (Ok a, w') => k a w'
    | (Throw e, w') => (Throw e, w')
    end.

(** [try { body } catch (error) { handler }]: what [body] did before it
    threw stays done. *)
Definition try_catch {A : Type} (body : M A) (handler : string -> M A)
  : M A :=
  fun w =>
    match body w with
    | (Ok a, w') => (Ok a, w')
    | (Throw e, w') => handler e w'
    end.

Definition liftR {A : Type} (r : result A) : M A := fun w => (r, w).

Notation "x <- c ;; k" := (bind c (fun x => k))
  (at level 61, c at next level, right associativity).
Notation "c ;;; k" := (bind c (fun _ => k))
  (at level 61, right associativity).

Definition set_storage (st : MemStorage) (w : World) : World :=
  mkWorld st (uuids_drawn w) (dates_taken w) (provider_calls w) (sent w)
    (console w) (timers w).

Section Handlers.
Variable P : Platform.

Definition new_uuid : M string := fun w =>
  (Ok (randomUUID P (uuids_drawn w)),
   mkWorld (storage w) (S (uuids_drawn w)) (dates_taken w)
     (provider_calls w) (sent w) (console w) (timers w)).

Definition new_Date : M Date := fun w =>
  (Ok (clock P (dates_taken w)),
   mkWorld (storage w) (uuids_drawn w) (S (dates_taken w))
     (provider_calls w) (sent w) (console w) (timers w)).

(** [ws.send(JSON.stringify(frame))] on an open socket. *)
Definition ws_send (frame : Frame) : M unit := fun w =>
  (Ok tt,
   mkWorld (storage w) (uuids_drawn w) (dates_taken w) (provider_calls w)
     (sent w ++ [frame])%list (console w) (timers w)).

Definition console_error (label : string) (e : string) : M unit := fun w =>
  (Ok tt,
   mkWorld (storage w) (uuids_drawn w) (dates_taken w) (provider_calls w)
     (sent w) (console w ++ [(label ++ " " ++ e)%string])%list (timers w)).

Definition setTimeout (videoId : string) : M unit := fun w =>
  (Ok tt,
   mkWorld (storage w) (uuids_drawn w) (dates_taken w) (provider_calls w)
     (sent w) (console w) (timers w ++ [videoId])%list).

(** A create method of the store: it draws its identifier, then its
    creation instant. *)
Definition creating {A : Type}
    (method : string -> Date -> MemStorage -> MemStorage * A) : M A :=
  id <- new_uuid ;;
  now <- new_Date ;;
  fun w =>
    let (st', a) := method id now (storage w) in
    (Ok a, set_storage st' w).

(** A method that only reads the store. *)
Definition reading {A : Type} (method : MemStorage -> A) : M A :=
  fun w => (Ok (method (storage w)), w).

(** An update method: it writes the store, or rejects and leaves it. *)
Definition updating {A : Type}
    (method : MemStorage -> result (MemStorage * A)) : M A :=
  fun w =>
    match method (storage w) with
    | Ok (st', a) => (Ok a, set_storage st' w)
    | Throw e => (Throw e, w)
    end.

(** An update method that stamps [updatedAt]: it takes its instant only
    once it has found the record. *)
Definition updating_at {A : Type}
    (method : Date -> MemStorage -> result (MemStorage * A)) : M A :=
  fun w =>
    match method (clock P (dates_taken w)) (storage w) with
    | Ok (st', a) =>
        (Ok a,
         mkWorld st' (uuids_drawn w) (S (dates_taken w))
           (provider_calls w) (sent w) (console w) (timers w))
    | Throw e => (Throw e, w)
    end.

(** A provider request with one user message: the request is recorded,
    then it resolves or rejects. *)
Definition provider_request (p : Provider) (content : any)
  : M (option string) :=
  fun w =>
    let call := mkCall p content in
    let w' :=
      mkWorld (storage w) (uuids_drawn w) (dates_taken w)
        (provider_calls w ++ [call])%list (sent w) (console w) (timers w) in
    match provider_reply P (List.length (provider_calls w)) call with
    | Replied content => (Ok content, w')
    | Failed e => (Throw e, w')
    end.

(** [text || fallback] for a nullable string. *)
Definition text_or (text : option string) (fallback : string) : string :=
  match text with
  | Some s => if String.eqb s EmptyString then fallback else s
  | None => fallback
  end.

(** [model.startsWith(prefix)] for a [model] of any type. *)
Definition call_startsWith (model : any) (prefix : string) : result bool :=
  match model with
  | Some (JStr s) => Ok (startsWith s prefix)
  | None => Throw (cannot_read "undefined" "startsWith")
  | Some JNull => Throw (cannot_read "null" "startsWith")
  | Some _ => Throw "model.startsWith is not a function"
  end.

(* --------------------------------------------------------------- *)
(** *** The chat relay: [ws.on('message', ...)] *)

Definition ai_response (model content : any) : M string :=
  gpt <- liftR (call_startsWith model "gpt") ;;
  if gpt then
    reply <- provider_request OpenAI content ;;
    ret (text_or reply "Sorry, I couldn't generate a response.")
  else
    claude <- liftR (call_startsWith model "claude") ;;
    if claude then
      reply <- provider_request Anthropic content ;;
      ret (text_or reply "Sorry, I couldn't generate a response.")
    else ret "Model not supported".

Definition chat_message (message : any) : M unit :=
  conversationId <- liftR (get_prop message "conversationId") ;;
  content <- liftR (get_prop message "content") ;;
  role <- liftR (get_prop message "role") ;;
  model <- liftR (get_prop message "model") ;;
  creating (fun id now =>
    createMessage id now
      (Message.mkInsert conversationId "user" content (Some JNull))) ;;;
  ws_send (Typing true) ;;;
  try_catch
    (aiResponse <- ai_response model content ;;
     savedMessage <-
       creating (fun id now =>
         createMessage id now
           (Message.mkInsert conversationId "assistant"
              (Some (JStr aiResponse)) (Some JNull))) ;;
     ws_send (Typing false) ;;;
     ws_send (ChatMessage savedMessage))
    (fun error => ws_send (ErrorFrame ("Failed to get AI response: " ++ error))).

Definition on_message (data : string) : M unit :=
  try_catch
    (message <- liftR (JSON_parse P data) ;;
     type <- liftR (get_prop (Some message) "type") ;;
     if strict_equals type (Some (JStr "chat_message"))
     then chat_message (Some message)
     else ret tt)
    (fun error => console_error "WebSocket error:" error).
End Handlers.

(* ================================================================= *)
(** ** The HTTP handlers *)

(** [String(v)], as a template literal applies it.  A number prints as
    its decimal digits, which is what JavaScript prints for the integers
    it holds exactly (below 2^53 in absolute value); beyond them it rounds,
    and from 10^21 on it prints an exponent, which this embedding does not
    follow. *)
Fixpoint js_to_string (v : json) : string :=
  match v with
  | JNull => "null"
  | JBool true => "true"
  | JBool false => "false"
  | JNum n => string_of_Z n
  | JStr s => s
  | JArr items =>
      String.concat ","
        (List.map
           (fun x => match x with JNull => EmptyString | _ => js_to_string x end)
           items)
  | JObj _ => "[object Object]"
  end.

Definition to_string (v : any) : string :=
  match v with
  | Some j => js_to_string j
  | None => "undefined"
  end.

(** [v.join(separator)] *)
Definition call_join (v : any) (separator : string) : result string :=
  match v with
  | Some (JArr items) =>
      Ok (String.concat separator
            (List.map
               (fun x => match x with JNull => EmptyString | _ => js_to_string x end)
               items))
  | None => Throw (cannot_read "undefined" "join")
  | Some JNull => Throw (cannot_read "null" "join")
  | Some _ => Throw "questionTypes.join is not a function"
  end.

(** A destructuring default: [{ key = fallback }]. *)
Definition or_default (v : any) (fallback : json) : any :=
  match v with
  | None => Some fallback
  | Some _ => v
  end.

Definition nl : string := String (ascii_of_nat 10) EmptyString.
Definition dq : string := String (ascii_of_nat 34) EmptyString.
Definition quoted (s : string) : string := dq ++ s ++ dq.

Definition flashcards_prompt (count content : any) : string :=
  "Create " ++ to_string count
  ++ " flashcards from the following content. Each flashcard should have a clear question on the front and a concise answer on the back. Format as JSON array with objects containing "
  ++ quoted "front" ++ " and " ++ quoted "back" ++ " properties." ++ nl
  ++ nl
  ++ "Content: " ++ to_string content ++ nl
  ++ nl
  ++ "Return only the JSON array, no additional text.".

Definition enhance_prompt (note : Note.t) : string :=
  "Enhance and improve the following note by:" ++ nl
  ++ "1. Fixing grammar and clarity" ++ nl
  ++ "2. Adding structure and organization" ++ nl
  ++ "3. Highlighting key concepts" ++ nl
  ++ "4. Suggesting related topics to explore" ++ nl
  ++ nl
  ++ "Original note:" ++ nl
  ++ "Title: " ++ Note.title note ++ nl
  ++ "Content: " ++ Note.content note ++ nl
  ++ nl
  ++ "Return the enhanced content as plain text.".

Definition quiz_prompt (difficulty subject questionCount : any)
    (joinedTypes : string) : string :=
  "Create a " ++ to_string difficulty ++ " difficulty quiz about "
  ++ quoted (to_string subject) ++ " with " ++ to_string questionCount
  ++ " questions. " ++ nl
  ++ "      " ++ nl
  ++ "Question types to include: " ++ joinedTypes ++ nl
  ++ nl
  ++ "Format as JSON with this structure:" ++ nl
  ++ "{" ++ nl
  ++ "  " ++ quoted "title" ++ ": " ++ quoted "Quiz title" ++ "," ++ nl
  ++ "  " ++ quoted "questions" ++ ": [" ++ nl
  ++ "    {" ++ nl
  ++ "      " ++ quoted "type" ++ ": " ++ quoted "multiple-choice" ++ "," ++ nl
  ++ "      " ++ quoted "question" ++ ": " ++ quoted "Question text" ++ "," ++ nl
  ++ "      " ++ quoted "options" ++ ": [" ++ quoted "A" ++ ", " ++ quoted "B"
  ++ ", " ++ quoted "C" ++ ", " ++ quoted "D" ++ "]," ++ nl
  ++ "      " ++ quoted "correctAnswer" ++ ": 0," ++ nl
  ++ "      " ++ quoted "explanation" ++ ": " ++ quoted "Why this is correct" ++ nl
  ++ "    }" ++ nl
  ++ "  ]" ++ nl
  ++ "}" ++ nl
  ++ nl
  ++ "Return only the JSON, no additional text.".

(** What [res.json(...)] is given. *)
Inductive Body : Type :=
| MessageBody (message : string)
| JsonBody (v : json)
| NoteBody (note : Note.t)
| QuizBody (quiz : Quiz.t)
| AttemptBody (attempt : QuizAttempt.t)
| VideoBody (video : VideoGeneration.t).

Record Response := mkResponse { status : Z; body : Body }.

Definition DEFAULT_USER_ID : string := "default-user".

(** [JSON.parse(text || "{}")] *)
Definition parse_or_empty (P : Platform) (text : option string) : result json :=
  JSON_parse P (text_or text "{}").

Section Routes.
Variable P : Platform.

(** [POST /api/flashcards/generate] *)
Definition post_flashcards_generate (req_body : any) : M Response :=
  try_catch
    (content <- liftR (get_prop req_body "content") ;;
     subject <- liftR (get_prop req_body "subject") ;;
     count0 <- liftR (get_prop req_body "count") ;;
     let count := or_default count0 (JNum 5) in
     if negb (truthy content)
     then ret (mkResponse 400 (MessageBody "Content is required"))
     else
       let prompt := flashcards_prompt count content in
       reply <- provider_request P OpenAI (Some (JStr prompt)) ;;
       result <- liftR (parse_or_empty P reply) ;;
       cards <- liftR (get_prop (Some result) "flashcards") ;;
       ret (mkResponse 200
              (JsonBody (match js_or cards (Some (JArr [])) with
                         | Some v => v
                         | None => JArr []
                         end))))
    (fun _ =>
       ret (mkResponse 500 (MessageBody "Failed to generate flashcards"))).

(** [POST /api/notes/:id/enhance] *)
Definition post_notes_enhance (id : string) : M Response :=
  try_catch
    (found <- reading (getNote id) ;;
     match found with
     | None => ret (mkResponse 404 (MessageBody "Note not found"))
     | Some note =>
         let prompt := enhance_prompt note in
         reply <- provider_request P OpenAI (Some (JStr prompt)) ;;
         let enhancedContent := text_or reply (Note.content note) in
         updatedNote <-
           updating_at P (fun now =>
             updateNote now id
               (Note.mkPartial None None None (Some enhancedContent)
                  None None None None)) ;;
         ret (mkResponse 200 (NoteBody updatedNote))
     end)
    (fun _ => ret (mkResponse 500 (MessageBody "Failed to enhance note"))).

(** [POST /api/quizzes/generate] *)
Definition post_quizzes_generate (req_body : any) : M Response :=
  try_catch
    (subject <- liftR (get_prop req_body "subject") ;;
     difficulty <- liftR (get_prop req_body "difficulty") ;;
     questionCount0 <- liftR (get_prop req_body "questionCount") ;;
     questionTypes0 <- liftR (get_prop req_body "questionTypes") ;;
     let questionCount := or_default questionCount0 (JNum 5) in
     let questionTypes :=
       or_default questionTypes0 (JArr [JStr "multiple-choice"]) in
     if negb (truthy subject)
     then ret (mkResponse 400 (MessageBody "Subject is required"))
     else
       joined <- liftR (call_join questionTypes ", ") ;;
       let prompt := quiz_prompt difficulty subject questionCount joined in
       reply <- provider_request P OpenAI (Some (JStr prompt)) ;;
       quizData <- liftR (parse_or_empty P reply) ;;
       title <- liftR (get_prop (Some quizData) "title") ;;
       questions <- liftR (get_prop (Some quizData) "questions") ;;
       quiz <-
         creating P (fun id now =>
           createQuiz id now
             (Quiz.mkInsert DEFAULT_USER_ID
                (js_or title (Some (JStr (to_string subject ++ " Quiz"))))
                subject difficulty
                (js_or questions (Some (JArr []))))) ;;
       ret (mkResponse 200 (QuizBody quiz)))
    (fun _ => ret (mkResponse 500 (MessageBody "Failed to generate quiz"))).

(** [answers.forEach(...)] needs an array. *)
Definition call_forEach (answers : any) : result (list json) :=
  match answers with
  | Some (JArr items) => Ok items
  | None => Throw (cannot_read "undefined" "forEach")
  | Some JNull => Throw (cannot_read "null" "forEach")
  | Some _ => Throw "answers.forEach is not a function"
  end.

(** The body of the grading callback:
    [if (questions[index] && answer === questions[index].correctAnswer) score++] *)
Definition grade_answer (questions : any) (answer : json) (index : nat)
    (score : Z) : result Z :=
  let* question := get_index questions index in
  if truthy question
  then
    let* question' := get_index questions index in
    let* correctAnswer := get_prop question' "correctAnswer" in
    if strict_equals (Some answer) correctAnswer
    then Ok (score + 1)
    else Ok score
  else Ok score.

Fixpoint grade_from (questions : any) (answers : list json) (index : nat)
    (score : Z) : result Z :=
  match answers with
  | [] => Ok score
  | answer :: rest =>
      let* score' := grade_answer questions answer index score in
      grade_from questions rest (S index) score'
  end.

(** [POST /api/quizzes/:id/attempts] *)
Definition post_quiz_attempts (id : string) (req_body : any) : M Response :=
  try_catch
    (answers <- liftR (get_prop req_body "answers") ;;
     found <- reading (getQuiz id) ;;
     match found with
     | None => ret (mkResponse 404 (MessageBody "Quiz not found"))
     | Some quiz =>
         let questions := Quiz.questions quiz in
         items <- liftR (call_forEach answers) ;;
         score <- liftR (grade_from questions items 0 0) ;;
         total <- liftR (get_length questions) ;;
         attempt <-
           creating P (fun attemptId now =>
             createQuizAttempt attemptId now
               (QuizAttempt.mkInsert id DEFAULT_USER_ID answers score
                  total)) ;;
         ret (mkResponse 200 (AttemptBody attempt))
     end)
    (fun _ =>
       ret (mkResponse 400 (MessageBody "Failed to submit quiz attempt"))).

(** The callback the video route hands to [setTimeout]. *)
Definition video_generation_timeout (videoId : string) : M unit :=
  try_catch
    (now <- new_Date P ;;
     updating
       (updateVideoGeneration videoId
          (VideoGeneration.mkPartial None None None None None None
             (Some "completed")
             (Some (Some ("https://example.com/videos/" ++ videoId ++ ".mp4")))
             (Some (Some ("https://example.com/thumbnails/" ++ videoId ++ ".jpg")))
             None
             (Some (Some now)))) ;;;
     ret tt)
    (fun error =>
       console_error "Failed to update video generation status:" error).

(** [POST /api/video-generations]; [parsed] is what
    [insertVideoGenerationSchema.parse({...req.body, userId})] comes to,
    the validated insert or the validation error. *)
Definition post_video_generations (parsed : result VideoGeneration.insert)
  : M Response :=
  try_catch
    (data <- liftR parsed ;;
     video <- creating P (fun id now => createVideoGeneration id now data) ;;
     setTimeout (VideoGeneration.id video) ;;;
     ret (mkResponse 200 (VideoBody video)))
    (fun _ =>
       ret (mkResponse 400 (MessageBody "Invalid video generation data"))).

(** [GET /api/video-generations/:id] *)
Definition get_video_generation (id : string) : M Response :=
  try_catch
    (found <- reading (getVideoGeneration id) ;;
     match found with
     | None => ret (mkResponse 404 (MessageBody "Video generation not found"))
     | Some video => ret (mkResponse 200 (VideoBody video))
     end)
    (fun _ =>
       ret (mkResponse 500 (MessageBody "Failed to fetch video generation"))).

(** The five seconds are over for the oldest pending timer: its callback
    runs. *)
Definition fire_timeout : M unit := fun w =>
  match timers w with
  | [] => (Ok tt, w)
  | videoId :: rest =>
      video_generation_timeout videoId
        (mkWorld (storage w) (uuids_drawn w) (dates_taken w)
           (provider_calls w) (sent w) (console w) rest)
  end.
End Routes.

(* ================================================================= *)
(** ** The vocabulary of the specification *)

(** The field [key] of a parsed value: [undefined] unless the value is an
    object that has it. *)
Definition field_of (v : json) (key : string) : any :=
  match v with
  | JObj fields => assoc key fields
  | _ => undefined
  end.

(** [question.correctAnswer] of a stored question. *)
Definition correctAnswer_of (question : json) : any :=
  field_of question "correctAnswer".



(** The world with one more provider request on record. *)
Definition with_call (call : ProviderCall) (w : World) : World :=
  mkWorld (storage w) (uuids_drawn w) (dates_taken w)
    (provider_calls w ++ [call])%list (sent w) (console w) (timers w).

(** The answer and the stored correct answer are the same value. *)
Definition equals_correct (answer question : json) : Prop :=
  Some answer = correctAnswer_of question.

(** The same, for an answer that is a number, a string, a boolean or
    [null]. *)
Definition primitive_equals_correct (answer question : json) : Prop :=
  is_primitive answer = true /\ Some answer = correctAnswer_of question.

Section Counting.
Variable hit : json -> json -> Prop.

(** [positions_hit answers questions k]: the two lists have the same
    length and [hit] holds at exactly [k] positions. *)
Inductive positions_hit : list json -> list json -> nat -> Prop :=
| hit_done : positions_hit [] [] 0
| hit_yes answer question answers questions k :
    hit answer question ->
    positions_hit answers questions k ->
    positions_hit (answer :: answers) (question :: questions) (S k)
| hit_no answer question answers questions k :
    ~ hit answer question ->
    positions_hit answers questions k ->
    positions_hit (answer :: answers) (question :: questions) k.
End Counting.

(** The provider a model name selects, by prefix. *)
Definition provider_for (model : string) : option Provider :=
  if startsWith model "gpt" then Some OpenAI
  else if startsWith model "claude" then Some Anthropic
  else None.

(** The message the relay persists for a frame, given the identifier and
    the instant the store drew for it. *)
Definition inbound_message (id : string) (now : Date)
    (conversationId content : any) : Message.t :=
  Message.mk id conversationId "user" content (Some JNull) (Some now).

Definition option_Z_eqb (a b : option Z) : bool :=
  match a, b with
  | Some x, Some y => x =? y
  | None, None => true
  | _, _ => false
  end.

Section Listing.
Variable A : Type.
Variable instant : A -> option Date.

(** [a] may stand before [b]: both have an instant and [a]'s is not the
    earlier one. *)
Definition not_older (a b : A) : Prop :=
  exists ta tb, instant a = Some ta /\ instant b = Some tb /\ tb <= ta.

Definition dated (x : A) : Prop := exists t, instant x = Some t.

Definition same_instant (t : Z) (r : A) : bool :=
  option_Z_eqb (instant r) (Some t).

(** [listing] holds the records of [candidates], the newest first, and
    records of one instant in the order they have in [candidates]. *)
Definition newest_first_listing (candidates listing : list A) : Prop :=
  Permutation listing candidates
  /\ StronglySorted not_older listing
  /\ forall t,
       filter (same_instant t) listing = filter (same_instant t) candidates.
End Listing.

(** What a list-by-owner method must return for [userId], [stored] being
    the records of the map in insertion order: a list, not an exception;
    in it exactly the records of that owner; the newest first, and records
    of one instant in insertion order. *)
Definition owner_listing {A : Type} (owner : A -> string)
    (instant : A -> option Date) (userId : string) (stored : list A)
    (returned : result (list A)) : Prop :=
  exists listing,
    returned = Ok listing
    /\ (forall x, In x listing <-> In x stored /\ owner x = userId)
    /\ newest_first_listing instant
         (filter (fun x => String.eqb (owner x) userId) stored) listing.

(** [after] is [before] without the entries whose record is [gone], and
    with every other entry, in the order they had. *)
Definition removes_exactly {V : Type} (gone : V -> Prop)
    (before after : JsMap V) : Prop :=
  exists keep : V -> bool,
    (forall x, keep x = true <-> ~ gone x)
    /\ after = filter (fun e => keep (snd e)) before.

(* ================================================================= *)
(** ** Sample data for the examples *)

(** A platform for the examples: identifiers [id-0], [id-1], ...; a clock
    that reads [1000 + k]; a [JSON.parse] that agrees with the real one on
    the texts the examples use; a provider that answers the first request
    with the text [not json] and fails every later one. *)
Definition sample_JSON_parse (text : string) : result json :=
  if String.eqb text "{}" then Ok (JObj [])
  else if String.eqb text "[]" then Ok (JArr [])
  else if String.eqb text "null" then Ok JNull
  else if String.eqb text "ping" then Ok (JObj [("type", JStr "ping")])
  else if String.eqb text "chat-gpt"
       then Ok (JObj [("type", JStr "chat_message");
                      ("conversationId", JStr "c1");
                      ("content", JStr "hello");
                      ("role", JStr "system");
                      ("model", JStr "gpt-5");
                      ("attachments", JArr [JStr "file"])])
  else if String.eqb text "chat-other"
       then Ok (JObj [("type", JStr "chat_message");
                      ("conversationId", JStr "c1");
                      ("content", JStr "hello");
                      ("role", JStr "user");
                      ("model", JStr "llama")])
  else Throw "Unexpected token".

Definition sample_platform : Platform :=
  mkPlatform
    (fun k => "id-" ++ string_of_nat k)
    (fun k => 1000 + Z.of_nat k)
    sample_JSON_parse
    (fun k _ =>
       match k with
       | O => Replied (Some "not json")
       | _ => Failed "rate limited"
       end).


Definition empty_world (st : MemStorage) : World :=
  mkWorld st 0 0 [] [] [] [].

(** The same world after one provider request. *)
Definition later_world (st : MemStorage) : World :=
  mkWorld st 0 0 [mkCall OpenAI (Some (JStr "earlier"))] [] [] [].

Definition sample_note : Note.insert :=
  Note.mkInsert "default-user" "Cells" "mitochondria" None None.

Definition sample_quiz (questions : list json) : Quiz.insert :=
  Quiz.mkInsert "default-user" (Some (JStr "Quiz")) (Some (JStr "Biology"))
    (Some (JStr "easy")) (Some (JArr questions)).

Definition question_with (correctAnswer : json) : json :=
  JObj [("type", JStr "multiple-choice"); ("correctAnswer", correctAnswer)].

Definition sample_store : MemStorage :=
  run_ops
    [CreateNote "n1" 10 sample_note;
     CreateQuiz "q1" 11
       (sample_quiz
          [question_with (JNum 0); question_with (JNum 1);
           question_with (JNum 2)]);
     CreateQuiz "q2" 12 (sample_quiz [question_with (JArr [JNum 0])])]
    (MemStorage_new 0).

(** An update payload that carries an identifier and a null creation
    instant. *)
Definition renaming_payload : Note.partial :=
  Note.mkPartial (Some "other") None None None None None (Some None) None.

Definition answers_body (answers : list json) : any :=
  Some (JObj [("answers", JArr answers)]).

(* ================================================================= *)
(** ** The remaining routes

    The CRUD routes answer with a status and either a record (or a list of
    records) or a [{ message }] object. *)

Inductive Payload (A : Type) : Type :=
| Data (a : A)
| Text (message : string).
Arguments Data {A} a.
Arguments Text {A} message.

Record Answer (A : Type) : Type := mkAnswer
  { code : Z; payload : Payload A }.

(** [res.json(a)] and [res.status(code).json({ message })]. *)
Definition json_of {A : Type} (a : A) : Answer A := mkAnswer 200 (Data a).
Definition message_of {A : Type} (code : Z) (message : string) : Answer A :=
  mkAnswer code (Text message).

(** A list or sort method of the store: it reads, and may reject. *)
Definition querying {A : Type} (method : MemStorage -> result A) : M A :=
  fun w => (method (storage w), w).

(** A delete method of the store. *)
Definition deleting (method : MemStorage -> MemStorage) : M unit :=
  fun w => (Ok tt, set_storage (method (storage w)) w).

(** The second half of the invariant of a store with a history: messages
    and quiz attempts are only ever created, so each has its instant. *)
Definition store_dated (st : MemStorage) : bool :=
  has_instant Message.createdAt (messages st)
  && has_instant QuizAttempt.completedAt (quizAttempts st).

Section CrudRoutes.
Variable P : Platform.

(** [GET /api/conversations] *)
Definition get_conversations : M (Answer (list Conversation.t)) :=
  try_catch
    (conversations <- querying (getUserConversations DEFAULT_USER_ID) ;;
     ret (json_of conversations))
    (fun _ => ret (message_of 500 "Failed to fetch conversations")).

(** [POST /api/conversations]; [parsed] is what
    [insertConversationSchema.parse({...req.body, userId})] comes to. *)
Definition post_conversations (parsed : result Conversation.insert)
  : M (Answer Conversation.t) :=
  try_catch
    (data <- liftR parsed ;;
     conversation <-
       creating P (fun id now => createConversation id now data) ;;
     ret (json_of conversation))
    (fun _ => ret (message_of 400 "Invalid conversation data")).

(** [GET /api/conversations/:id] *)
Definition get_conversation (id : string) : M (Answer Conversation.t) :=
  try_catch
    (found <- reading (getConversation id) ;;
     match found with
     | None => ret (message_of 404 "Conversation not found")
     | Some conversation => ret (json_of conversation)
     end)
    (fun _ => ret (message_of 500 "Failed to fetch conversation")).

(** [DELETE /api/conversations/:id] *)
Definition delete_conversation (id : string) : M (Answer unit) :=
  try_catch
    (deleting (deleteConversation id) ;;;
     ret (message_of 200 "Conversation deleted"))
    (fun _ => ret (message_of 500 "Failed to delete conversation")).

(** [GET /api/conversations/:id/messages] *)
Definition get_conversation_messages (id : string)
  : M (Answer (list Message.t)) :=
  try_catch
    (messages <- querying (getConversationMessages id) ;;
     ret (json_of messages))
    (fun _ => ret (message_of 500 "Failed to fetch messages")).

(** [GET /api/flashcard-sets] *)
Definition get_flashcard_sets : M (Answer (list FlashcardSet.t)) :=
  try_catch
    (sets <- querying (getUserFlashcardSets DEFAULT_USER_ID) ;;
     ret (json_of sets))
    (fun _ => ret (message_of 500 "Failed to fetch flashcard sets")).

(** [POST /api/flashcard-sets] *)
Definition post_flashcard_sets (parsed : result FlashcardSet.insert)
  : M (Answer FlashcardSet.t) :=
  try_catch
    (data <- liftR parsed ;;
     set <- creating P (fun id now => createFlashcardSet id now data) ;;
     ret (json_of set))
    (fun _ => ret (message_of 400 "Invalid flashcard set data")).

(** [DELETE /api/flashcard-sets/:id] *)
Definition delete_flashcard_set (id : string) : M (Answer unit) :=
  try_catch
    (deleting (deleteFlashcardSet id) ;;;
     ret (message_of 200 "Flashcard set deleted"))
    (fun _ => ret (message_of 500 "Failed to delete flashcard set")).

(** [GET /api/flashcard-sets/:setId/flashcards] *)
Definition get_set_flashcards (setId : string)
  : M (Answer (list Flashcard.t)) :=
  try_catch
    (cards <- querying (getSetFlashcards setId) ;;
     ret (json_of cards))
    (fun _ => ret (message_of 500 "Failed to fetch flashcards")).

(** [POST /api/flashcard-sets/:setId/flashcards]; [parsed] is what
    [insertFlashcardSchema.parse({...req.body, setId})] comes to. *)
Definition post_flashcards (parsed : result Flashcard.insert)
  : M (Answer Flashcard.t) :=
  try_catch
    (data <- liftR parsed ;;
     card <- creating P (fun id now => createFlashcard id now data) ;;
     ret (json_of card))
    (fun _ => ret (message_of 400 "Invalid flashcard data")).

(** [PUT /api/flashcards/:id]; [updates] is the request body, at the type
    the store gives its parameter, [Partial<Flashcard>].  The route does
    not validate the body, and a JSON body never carries a [Date]: a body
    that names [createdAt] stores a value the sort of [getSetFlashcards]
    cannot read, of which this embedding holds the null one only. *)
Definition put_flashcard (id : string) (updates : Flashcard.partial)
  : M (Answer Flashcard.t) :=
  try_catch
    (card <- updating (updateFlashcard id updates) ;;
     ret (json_of card))
    (fun _ => ret (message_of 400 "Failed to update flashcard")).

(** [DELETE /api/flashcards/:id] *)
Definition delete_flashcard (id : string) : M (Answer unit) :=
  try_catch
    (deleting (deleteFlashcard id) ;;;
     ret (message_of 200 "Flashcard deleted"))
    (fun _ => ret (message_of 500 "Failed to delete flashcard")).

(** [GET /api/notes] *)
Definition get_notes : M (Answer (list Note.t)) :=
  try_catch
    (notes <- querying (getUserNotes DEFAULT_USER_ID) ;;
     ret (json_of notes))
    (fun _ => ret (message_of 500 "Failed to fetch notes")).

(** [POST /api/notes] *)
Definition post_notes (parsed : result Note.insert) : M (Answer Note.t) :=
  try_catch
    (data <- liftR parsed ;;
     note <- creating P (fun id now => createNote id now data) ;;
     ret (json_of note))
    (fun _ => ret (message_of 400 "Invalid note data")).

(** [GET /api/notes/:id] *)
Definition get_note (id : string) : M (Answer Note.t) :=
  try_catch
    (found <- reading (getNote id) ;;
     match found with
     | None => ret (message_of 404 "Note not found")
     | Some note => ret (json_of note)
     end)
    (fun _ => ret (message_of 500 "Failed to fetch note")).

(** [PUT /api/notes/:id]; [updates] is the request body, at the type the
    store gives its parameter, [Partial<Note>]; the route does not
    validate it. *)
Definition put_note (id : string) (updates : Note.partial)
  : M (Answer Note.t) :=
  try_catch
    (note <- updating_at P (fun now => updateNote now id updates) ;;
     ret (json_of note))
    (fun _ => ret (message_of 400 "Failed to update note")).

(** [DELETE /api/notes/:id] *)
Definition delete_note (id : string) : M (Answer unit) :=
  try_catch
    (deleting (deleteNote id) ;;; ret (message_of 200 "Note deleted"))
    (fun _ => ret (message_of 500 "Failed to delete note")).

(** [GET /api/quizzes] *)
Definition get_quizzes : M (Answer (list Quiz.t)) :=
  try_catch
    (quizzes <- querying (getUserQuizzes DEFAULT_USER_ID) ;;
     ret (json_of quizzes))
    (fun _ => ret (message_of 500 "Failed to fetch quizzes")).

(** [GET /api/quizzes/:id] *)
Definition get_quiz (id : string) : M (Answer Quiz.t) :=
  try_catch
    (found <- reading (getQuiz id) ;;
     match found with
     | None => ret (message_of 404 "Quiz not found")
     | Some quiz => ret (json_of quiz)
     end)
    (fun _ => ret (message_of 500 "Failed to fetch quiz")).

(** [GET /api/quiz-attempts] *)
Definition get_quiz_attempts : M (Answer (list QuizAttempt.t)) :=
  try_catch
    (attempts <- querying (getUserQuizAttempts DEFAULT_USER_ID) ;;
     ret (json_of attempts))
    (fun _ => ret (message_of 500 "Failed to fetch quiz attempts")).

(** [GET /api/video-generations] *)
Definition get_video_generations : M (Answer (list VideoGeneration.t)) :=
  try_catch
    (videos <- querying (getUserVideoGenerations DEFAULT_USER_ID) ;;
     ret (json_of videos))
    (fun _ => ret (message_of 500 "Failed to fetch video generations")).
End CrudRoutes.

(** The ascending counterparts of [not_older] and [newest_first_listing],
    for the two methods that list oldest first. *)
Definition not_newer {A : Type} (instant : A -> option Date) (a b : A)
  : Prop :=
  exists ta tb, instant a = Some ta /\ instant b = Some tb /\ ta <= tb.

Definition oldest_first_listing {A : Type} (instant : A -> option Date)
    (candidates listing : list A) : Prop :=
  Permutation listing candidates
  /\ StronglySorted (not_newer instant) listing
  /\ forall t,
       filter (same_instant instant t) listing
       = filter (same_instant instant t) candidates.

(** The keys of the nine maps, each in insertion order. *)
Definition store_keys (st : MemStorage) : list (list string) :=
  [map_keys (users st); map_keys (conversations st); map_keys (messages st);
   map_keys (flashcardSets st); map_keys (flashcards st);
   map_keys (notes st); map_keys (quizzes st); map_keys (quizAttempts st);
   map_keys (videoGenerations st)].

Definition is_update (op : StorageOp) : bool :=
  match op with
  | UpdateConversation _ _ _ | UpdateFlashcardSet _ _ _ | UpdateFlashcard _ _
  | UpdateNote _ _ _ | UpdateVideoGeneration _ _ => true
  | _ => false
  end.

(** A store with two flashcards in set [s1]; in [undated_cards_store] an
    update has set the creation instant of the first to null. *)
(** The one storage call that can rewrite a flashcard's [createdAt]. *)
Definition updates_flashcard (op : StorageOp) : bool :=
  match op with
  | UpdateFlashcard _ _ => true
  | _ => false
  end.

Definition cards_store : MemStorage :=
  run_ops
    [CreateFlashcard "f1" 21 (Flashcard.mkInsert "s1" "front" "back" None);
     CreateFlashcard "f2" 22 (Flashcard.mkInsert "s1" "front" "back" (Some 2))]
    sample_store.

Definition undated_cards_store : MemStorage :=
  run_op
    (UpdateFlashcard "f1"
       (Flashcard.mkPartial None None None None None None None None
          (Some None)))
    cards_store.

(* ================================================================= *)
(** ** The client library [lib/ai-clients.ts] *)

Module AIModel.
Record t := mk
  { id : string; name : string; provider : string; description : string;
    maxTokens : Z; supportsImages : bool; supportsFiles : bool }.
End AIModel.

Definition AVAILABLE_MODELS : list AIModel.t :=
  [AIModel.mk "gpt-5" "GPT-5" "openai"
     "Most advanced OpenAI model with exceptional reasoning" 128000 true true;
   AIModel.mk "gpt-4o" "GPT-4o" "openai"
     "Fast and capable multimodal model" 128000 true true;
   AIModel.mk "claude-sonnet-4-20250514" "Claude Sonnet 4" "anthropic"
     "Anthropic's most advanced model" 200000 true true;
   AIModel.mk "claude-3-5-sonnet-20241022" "Claude 3.5 Sonnet" "anthropic"
     "Excellent for complex reasoning and coding" 200000 true true;
   AIModel.mk "gemini-pro" "Gemini Pro" "google"
     "Google's multimodal AI model" 32000 true true].

Definition getModelById (modelId : string) : option AIModel.t :=
  find (fun model => String.eqb (AIModel.id model) modelId) AVAILABLE_MODELS.

Definition getModelsByProvider (provider : string) : list AIModel.t :=
  filter (fun model => String.eqb (AIModel.provider model) provider)
    AVAILABLE_MODELS.

(** [AVAILABLE_MODELS[0]] *)
Definition getDefaultModel : option AIModel.t := nth_error AVAILABLE_MODELS 0.

(** [Math.ceil(n / d)] for a length [n] and [d = 4]: the division by a
    power of two is exact in floating point, so the result is the integer
    ceiling of the quotient. *)
Definition Math_ceil_div (n d : Z) : Z := - ((- n) / d).

Definition estimateTokenCount (text : string) : Z :=
  Math_ceil_div (Z.of_nat (String.length text)) 4.













Section ParseAIError.
(** [Number(s)] for a string: its integer value, or [None] for [NaN]. *)
Variable StringToNumber : string -> option Z.



End ParseAIError.



(* ================================================================= *)
(** ** The chat hook: [sendMessage] of [useChat]

    A string is its sequence of code units; those of the texts modelled
    here are below 256. *)

(** The code units below 256 that [String.prototype.trim] removes: tab,
    line feed, vertical tab, form feed, carriage return, space and
    no-break space. *)
Definition is_js_space (c : ascii) : bool :=
  let n := nat_of_ascii c in
  (Nat.eqb n 9 || Nat.eqb n 10 || Nat.eqb n 11 || Nat.eqb n 12
   || Nat.eqb n 13 || Nat.eqb n 32 || Nat.eqb n 160)%bool.

Fixpoint trim_start (s : string) : string :=
  match s with
  | EmptyString => EmptyString
  | String c rest => if is_js_space c then trim_start rest else s
  end.

Fixpoint trim_end (s : string) : string :=
  match s with
  | EmptyString => EmptyString
  | String c rest =>
      match trim_end rest with
      | EmptyString => if is_js_space c then EmptyString else String c EmptyString
      | kept => String c kept
      end
  end.

(** [s.trim()] *)
Definition trim (s : string) : string := trim_end (trim_start s).

(** [content.slice(0, 50) + (content.length > 50 ? "..." : "")] *)
Definition conversation_title (content : string) : string :=
  substring 0 50 content
  ++ (if (50 <? String.length content)%nat then "..." else EmptyString).

Inductive ConnectionStatus : Type := Connecting | Open | Closing | Closed.

(** The state the callback closes over. *)
Record ChatState := mkChatState
  { currentConversationId : option string;
    selectedModel : string;
    connectionStatus : ConnectionStatus }.

(** What the callback does to the outside. *)
Inductive ChatEffect : Type :=
| MutateAsync (title model : string)
| SocketSend (frame : json)
| ScrollToBottom
| ConsoleWarn (label : string)
| ConsoleError (label message : string)
| Toast (title description : string).

(** The frame [sendMessage] builds. *)
Definition chat_frame (conversationId content model : string)
    (attachments : option (list json)) : json :=
  JObj [("type", JStr "chat_message");
        ("conversationId", JStr conversationId);
        ("content", JStr (trim content));
        ("role", JStr "user");
        ("model", JStr model);
        ("attachments",
         match attachments with
         | Some items => JArr items
         | None => JNull
         end)].

(** The [catch] block of [sendMessage]. *)
Definition failed_to_send (message : string) : list ChatEffect :=
  [ConsoleError "Failed to send message:" message;
   Toast "Failed to Send" "Could not send your message. Please try again."].

(** The [onError] of [createConversationMutation], which runs before the
    promise of [mutateAsync] rejects.  Its [onSuccess] only refreshes the
    list of conversations and selects the new one. *)
Definition creation_failed : ChatEffect :=
  Toast "Error" "Failed to create new conversation.".

(** [sendMessage(content, attachments)].  [socket_open] tells whether the
    socket of the connection hook is in state [OPEN], which is what its
    [sendMessage] checks; [creation] is how
    [createConversationMutation.mutateAsync] settles. *)
Definition sendMessage (state : ChatState) (socket_open : bool)
    (creation : result unit) (content : string)
    (attachments : option (list json)) : list ChatEffect :=
  if String.eqb (trim content) EmptyString then []
  else
    match currentConversationId state with
    | Some conversationId =>
        if String.eqb conversationId EmptyString
        then
          MutateAsync (conversation_title content)
            (selectedModel state)
          :: match creation with
             | Ok _ => []
             | Throw e => creation_failed :: failed_to_send e
             end
        else
          match connectionStatus state with
          | Open =>
              if socket_open
              then
                [SocketSend
                   (chat_frame conversationId content (selectedModel state)
                      attachments);
                 ScrollToBottom]
              else
                ConsoleWarn "WebSocket is not connected. Message not sent:"
                :: failed_to_send "Failed to send message via WebSocket"
          | _ => failed_to_send "WebSocket connection not available"
          end
    | None =>
        MutateAsync (conversation_title content) (selectedModel state)
        :: match creation with
           | Ok _ => []
           | Throw e => creation_failed :: failed_to_send e
           end
    end.

Definition is_socket_send (effect : ChatEffect) : bool :=
  match effect with
  | SocketSend _ => true
  | _ => false
  end.

(* ================================================================= *)
(** * Properties *)

(** ** Values *)

Lemma strict_equals_inv (a b : any) :
  strict_equals a b = true -> a = b.
Proof.
  destruct a as [[| x | x | x | x | x]|], b as [[| y | y | y | y | y]|];
    simpl; try discriminate; try reflexivity; intros H.
  - apply Bool.eqb_prop in H. now subst.
  - apply Z.eqb_eq in H. now subst.
  - apply String.eqb_eq in H. now subst.
Qed.

Lemma strict_equals_primitive (a : json) :
  is_primitive a = true -> strict_equals (Some a) (Some a) = true.
Proof.
  destruct a; simpl; try discriminate; intros _; trivial.
  - apply Bool.eqb_reflx.
  - apply Z.eqb_refl.
  - apply String.eqb_refl.
Qed.

Lemma strict_equals_Some_true (a : json) (c : any) :
  strict_equals (Some a) c = true <-> is_primitive a = true /\ c = Some a.
Proof.
  split.
  - intros H. split.
    + destruct a, c as [[]|]; simpl in *; trivial; discriminate.
    + symmetry. now apply strict_equals_inv.
  - intros [Hp ->]. now apply strict_equals_primitive.
Qed.

Lemma strict_equals_string (v : any) (s : string) :
  strict_equals v (Some (JStr s)) = true <-> v = Some (JStr s).
Proof.
  split.
  - apply strict_equals_inv.
  - intros ->. simpl. apply String.eqb_refl.
Qed.

(** ** Maps *)

Lemma nodupb_NoDup (l : list string) : nodupb l = true <-> NoDup l.
Proof.
  induction l as [| k rest IH]; simpl.
  - split; [constructor | trivial].
  - rewrite andb_true_iff, negb_true_iff, IH. split.
    + intros [Hk Hr]. constructor; trivial.
      intros Hin. assert (E : existsb (String.eqb k) rest = true).
      { apply existsb_exists. exists k. split; trivial. apply String.eqb_refl. }
      congruence.
    + intros H. inversion H as [| x xs Hk Hr]; subst. split; trivial.
      destruct (existsb (String.eqb k) rest) eqn:E; trivial.
      apply existsb_exists in E. destruct E as [y [Hy Heq]].
      apply String.eqb_eq in Heq. subst. contradiction.
Qed.

Section MapFacts.
Variable V : Type.
Implicit Types (m : JsMap V) (k : string) (v : V).

Lemma assoc_not_in k m : ~ In k (map_keys m) -> assoc k m = None.
Proof.
  induction m as [| [k' v'] rest IH]; simpl; trivial.
  intros H. destruct (String.eqb_spec k k') as [-> | Hne].
  - exfalso. apply H. now left.
  - apply IH. intros Hin. apply H. now right.
Qed.

Lemma assoc_in k m : In k (map_keys m) -> exists v, assoc k m = Some v.
Proof.
  induction m as [| [k' v'] rest IH]; simpl; [contradiction |].
  intros [-> | Hin].
  - rewrite String.eqb_refl. now exists v'.
  - destruct (String.eqb k k'); [now exists v' | now apply IH].
Qed.

Lemma assoc_app_r k (m1 m2 : JsMap V) :
  ~ In k (map_keys m1) -> assoc k (m1 ++ m2)%list = assoc k m2.
Proof.
  induction m1 as [| [k' v'] rest IH]; simpl; trivial.
  intros H. destruct (String.eqb_spec k k') as [-> | Hne].
  - exfalso. apply H. now left.
  - apply IH. intros Hin. apply H. now right.
Qed.

Lemma assoc_app_l k (m1 m2 : JsMap V) v :
  assoc k m1 = Some v -> assoc k (m1 ++ m2)%list = Some v.
Proof.
  induction m1 as [| [k' v'] rest IH]; simpl; [discriminate |].
  destruct (String.eqb k k'); trivial.
Qed.

Lemma map_has_In k m : map_has k m = true <-> In k (map_keys m).
Proof.
  unfold map_has, map_get. split.
  - intros H. destruct (assoc k m) eqn:E; [| discriminate].
    destruct (in_dec string_dec k (map_keys m)) as [Hin | Hnin]; trivial.
    rewrite (assoc_not_in _ _ Hnin) in E. discriminate.
  - intros Hin. destruct (assoc_in _ _ Hin) as [v ->]. reflexivity.
Qed.

Lemma map_keys_replace k v m : map_keys (map_replace k v m) = map_keys m.
Proof.
  induction m as [| [k' v'] rest IH]; simpl; trivial.
  destruct (String.eqb k k'); simpl; [reflexivity | now rewrite IH].
Qed.

Lemma assoc_replace_same k v m :
  In k (map_keys m) -> assoc k (map_replace k v m) = Some v.
Proof.
  induction m as [| [k' v'] rest IH]; simpl; [contradiction |].
  intros Hin. destruct (String.eqb_spec k k') as [-> | Hne]; simpl.
  - now rewrite String.eqb_refl.
  - destruct (String.eqb_spec k k'); [contradiction |].
    apply IH. destruct Hin as [E | Hin]; [congruence | trivial].
Qed.

Lemma assoc_replace_other k k' v m :
  k' <> k -> assoc k' (map_replace k v m) = assoc k' m.
Proof.
  intros Hne. induction m as [| [k0 v0] rest IH]; simpl; trivial.
  destruct (String.eqb_spec k k0) as [-> | Hne0]; simpl.
  - destruct (String.eqb_spec k' k0); [contradiction | reflexivity].
  - destruct (String.eqb k' k0); trivial.
Qed.

(** [m.set(k, v)] then [m.get(k)] gives [v]. *)
Lemma map_get_set_same k v m : map_get k (map_set k v m) = Some v.
Proof.
  unfold map_get, map_set. destruct (map_has k m) eqn:E.
  - apply assoc_replace_same. now apply map_has_In.
  - rewrite assoc_app_r.
    + simpl. now rewrite String.eqb_refl.
    + intros Hin. apply map_has_In in Hin. congruence.
Qed.

Lemma map_get_set_other k k' v m :
  k' <> k -> map_get k' (map_set k v m) = map_get k' m.
Proof.
  intros Hne. unfold map_get, map_set. destruct (map_has k m).
  - now apply assoc_replace_other.
  - destruct (assoc k' m) eqn:E.
    + now apply assoc_app_l.
    + destruct (in_dec string_dec k' (map_keys m)) as [Hin | Hnin].
      * destruct (assoc_in _ _ Hin) as [x Hx]. congruence.
      * rewrite assoc_app_r by trivial. simpl.
        destruct (String.eqb_spec k' k); [contradiction | reflexivity].
Qed.

Lemma map_has_set k k' v m :
  map_has k' m = true -> map_has k' (map_set k v m) = true.
Proof.
  unfold map_has. intros H.
  destruct (string_dec k' k) as [-> | Hne].
  - now rewrite map_get_set_same.
  - now rewrite map_get_set_other.
Qed.

Lemma map_keys_filter_In (f : string * V -> bool) k m :
  In k (map_keys (filter f m)) -> In k (map_keys m).
Proof.
  unfold map_keys. rewrite !in_map_iff.
  intros [e [He Hin]]. apply filter_In in Hin. exists e. tauto.
Qed.

Lemma NoDup_keys_filter (f : string * V -> bool) m :
  NoDup (map_keys m) -> NoDup (map_keys (filter f m)).
Proof.
  induction m as [| [k v] rest IH]; simpl; trivial.
  intros H. inversion H as [| x xs Hk Hr]; subst.
  destruct (f (k, v)); simpl; [| now apply IH].
  constructor; [| now apply IH].
  intros Hin. apply Hk. now apply map_keys_filter_In in Hin.
Qed.

Lemma map_delete_absent k m : ~ In k (map_keys m) -> map_delete k m = m.
Proof.
  unfold map_delete. induction m as [| [k' v'] rest IH]; simpl; trivial.
  intros H. destruct (String.eqb_spec k k') as [-> | Hne]; simpl.
  - exfalso. apply H. now left.
  - f_equal. apply IH. intros Hin. apply H. now right.
Qed.

Lemma map_delete_app k (m1 m2 : JsMap V) :
  map_delete k (m1 ++ m2)%list = (map_delete k m1 ++ map_delete k m2)%list.
Proof. unfold map_delete. apply filter_app. Qed.

Lemma map_ok_set k v m : map_ok m = true -> map_ok (map_set k v m) = true.
Proof.
  unfold map_ok. rewrite !nodupb_NoDup. intros H.
  unfold map_set. destruct (map_has k m) eqn:E.
  - now rewrite map_keys_replace.
  - unfold map_keys. rewrite map_app. simpl.
    apply NoDup_app; trivial.
    + constructor; [intros [] | constructor].
    + intros x Hx [<- | []]. apply map_has_In in Hx. congruence.
Qed.

Lemma map_ok_delete k m : map_ok m = true -> map_ok (map_delete k m) = true.
Proof.
  unfold map_ok. rewrite !nodupb_NoDup. apply NoDup_keys_filter.
Qed.

Lemma map_ok_filter (f : string * V -> bool) m :
  map_ok m = true -> map_ok (filter f m) = true.
Proof.
  unfold map_ok. rewrite !nodupb_NoDup. apply NoDup_keys_filter.
Qed.
End MapFacts.

Section DeleteWhere.
Variable V : Type.
Variable doomed : V -> bool.

Lemma delete_loop (todo done : JsMap V) :
  NoDup (map_keys (done ++ todo)%list) ->
  fold_left (delete_step doomed) (map_keys todo)
    (filter (survives doomed) done ++ todo)%list
= filter (survives doomed) (done ++ todo)%list.
Proof.
  revert done. induction todo as [| [k v] todo IH]; intros done Hnd.
  - simpl. now rewrite !app_nil_r.
  - assert (Hsplit : NoDup (map_keys ((done ++ [(k, v)]) ++ todo)%list))
      by now rewrite <- app_assoc.
    specialize (IH (done ++ [(k, v)])%list Hsplit).
    unfold map_keys in Hnd. rewrite map_app in Hnd. simpl in Hnd.
    pose proof (NoDup_remove_2 _ _ _ Hnd) as Hk.
    assert (Hdone : ~ In k (map_keys (filter (survives doomed) done))).
    { intros Hin. apply Hk. apply in_or_app. left.
      now apply map_keys_filter_In in Hin. }
    assert (Htodo : ~ In k (map_keys todo)).
    { intros Hin. apply Hk. apply in_or_app. now right. }
    simpl. unfold delete_step at 2. unfold map_get.
    rewrite assoc_app_r by trivial. simpl. rewrite String.eqb_refl.
    rewrite filter_app in IH. simpl in IH.
    replace (filter (survives doomed) (done ++ (k, v) :: todo))
      with (filter (survives doomed) ((done ++ [(k, v)]) ++ todo))
      by now rewrite <- app_assoc.
    rewrite <- IH. f_equal.
    unfold survives at 2 4. simpl. destruct (doomed v); simpl.
    + rewrite map_delete_app, (map_delete_absent _ _ Hdone).
      unfold map_delete at 1. simpl. rewrite String.eqb_refl. simpl.
      fold (map_delete k todo). rewrite (map_delete_absent _ _ Htodo).
      now rewrite app_nil_r.
    + now rewrite <- app_assoc.
Qed.

(** On a map with one entry per key the cascade loop is a filter: it
    removes the doomed entries, keeps the others, and keeps their order. *)
Lemma delete_where_filter (m : JsMap V) :
  map_ok m = true ->
  delete_where doomed m = filter (survives doomed) m.
Proof.
  unfold map_ok. rewrite nodupb_NoDup. intros H.
  exact (delete_loop m [] H).
Qed.
End DeleteWhere.

Section ValueFacts.
Variable V : Type.
Variable Q : V -> Prop.

Lemma values_replace k v (m : JsMap V) :
  Q v -> Forall Q (map_values m) -> Forall Q (map_values (map_replace k v m)).
Proof.
  intros Hv. induction m as [| [k' v'] rest IH]; simpl; trivial.
  intros H. inversion H; subst.
  destruct (String.eqb k k'); simpl; constructor; auto.
Qed.

Lemma values_set k v (m : JsMap V) :
  Q v -> Forall Q (map_values m) -> Forall Q (map_values (map_set k v m)).
Proof.
  intros Hv H. unfold map_set. destruct (map_has k m).
  - now apply values_replace.
  - unfold map_values. rewrite map_app. apply Forall_app. split; trivial.
    simpl. now constructor.
Qed.

Lemma values_filter (f : string * V -> bool) (m : JsMap V) :
  Forall Q (map_values m) -> Forall Q (map_values (filter f m)).
Proof.
  induction m as [| [k v] rest IH]; simpl; trivial.
  intros H. inversion H; subst. destruct (f (k, v)); simpl; auto.
Qed.
End ValueFacts.

Lemma has_instant_Forall {A : Type} (key : A -> option Date) (m : JsMap A) :
  has_instant key m = true
  <-> Forall (fun r => exists t, key r = Some t) (map_values m).
Proof.
  unfold has_instant. rewrite forallb_forall, Forall_forall.
  split; intros H r Hr; specialize (H r Hr).
  - destruct (key r) as [t |]; [now exists t | discriminate].
  - destruct H as [t ->]. reflexivity.
Qed.

Lemma has_instant_set {A : Type} (key : A -> option Date) k v (m : JsMap A) t :
  key v = Some t -> has_instant key m = true ->
  has_instant key (map_set k v m) = true.
Proof.
  rewrite !has_instant_Forall. intros Hv. apply values_set. now exists t.
Qed.

Lemma has_instant_delete {A : Type} (key : A -> option Date) k (m : JsMap A) :
  has_instant key m = true -> has_instant key (map_delete k m) = true.
Proof. rewrite !has_instant_Forall. apply values_filter. Qed.

(** ** The invariant of the store *)

Lemma store_ok_iff (st : MemStorage) :
  store_ok st = true <->
  map_ok (users st) = true /\ map_ok (conversations st) = true
  /\ map_ok (messages st) = true /\ map_ok (flashcardSets st) = true
  /\ map_ok (flashcards st) = true /\ map_ok (notes st) = true
  /\ map_ok (quizzes st) = true /\ map_ok (quizAttempts st) = true
  /\ map_ok (videoGenerations st) = true
  /\ has_instant conversation_instant (conversations st) = true
  /\ has_instant flashcardSet_instant (flashcardSets st) = true
  /\ has_instant note_instant (notes st) = true
  /\ has_instant Quiz.createdAt (quizzes st) = true.
Proof. unfold store_ok. rewrite !andb_true_iff. tauto. Qed.

Lemma map_ok_delete_where {V : Type} (doomed : V -> bool) (m : JsMap V) :
  map_ok m = true -> map_ok (delete_where doomed m) = true.
Proof.
  intros H. rewrite delete_where_filter by trivial. now apply map_ok_filter.
Qed.

Create HintDb store discriminated.
#[local] Hint Resolve map_ok_set map_ok_delete map_ok_filter
  map_ok_delete_where has_instant_delete : store.

Ltac store_facts H :=
  apply store_ok_iff in H;
  destruct H as (Hu & Hc & Hm & Hfs & Hf & Hn & Hq & Hqa & Hv
                 & Hci & Hfsi & Hni & Hqi).

Ltac store_goal :=
  apply store_ok_iff; simpl;
  repeat match goal with |- _ /\ _ => split end;
  auto with store;
  try (eapply has_instant_set; [reflexivity | assumption]).

Lemma MemStorage_new_ok (now : Date) : store_ok (MemStorage_new now) = true.
Proof. reflexivity. Qed.

Lemma run_op_ok (op : StorageOp) (st : MemStorage) :
  store_ok st = true -> store_ok (run_op op st) = true.
Proof.
  intros H. pose proof H as Hst. store_facts H.
  destruct op; simpl;
    try (unfold updateConversation, updateFlashcardSet, updateFlashcard,
           updateNote, updateVideoGeneration;
         match goal with
         | |- context [map_get ?k ?m] => destruct (map_get k m); simpl
         end; trivial);
    store_goal.
Qed.

Lemma run_ops_ok (ops : list StorageOp) (st : MemStorage) :
  store_ok st = true -> store_ok (run_ops ops st) = true.
Proof.
  unfold run_ops. revert st.
  induction ops as [| op ops IH]; simpl; intros st H; trivial.
  apply IH. now apply run_op_ok.
Qed.

(** Every store with a history satisfies the invariant. *)
Lemma history_ok (now0 : Date) (ops : list StorageOp) :
  store_ok (run_ops ops (MemStorage_new now0)) = true.
Proof. apply run_ops_ok, MemStorage_new_ok. Qed.

(* ================================================================= *)
(** ** Cascading deletes *)

Lemma removes_exactly_In {V : Type} (gone : V -> Prop) (before after : JsMap V) :
  removes_exactly gone before after ->
  forall e, In e after <-> In e before /\ ~ gone (snd e).
Proof.
  intros [keep [Hkeep ->]] e. rewrite filter_In, Hkeep. tauto.
Qed.

(** C4.  In a store with any history, deleting a flashcard set removes the
    set and exactly the flashcards whose [setId] is the deleted identifier;
    deleting a quiz removes the quiz and exactly the attempts whose
    [quizId] is it; deleting a conversation removes the conversation and
    exactly the messages whose [conversationId] is it.  The surviving
    children keep their order and every other map of the store is the
    same map as before. *)
Theorem cascade_delete_exact
    (now0 : Date) (ops : list StorageOp) (id : string) :
  let st := run_ops ops (MemStorage_new now0) in
  (let st' := deleteFlashcardSet id st in
   removes_exactly (fun card => Flashcard.setId card = id)
     (flashcards st) (flashcards st')
   /\ flashcardSets st' = map_delete id (flashcardSets st)
   /\ users st' = users st /\ conversations st' = conversations st
   /\ messages st' = messages st /\ notes st' = notes st
   /\ quizzes st' = quizzes st /\ quizAttempts st' = quizAttempts st
   /\ videoGenerations st' = videoGenerations st)
  /\
  (let st' := deleteQuiz id st in
   removes_exactly (fun attempt => QuizAttempt.quizId attempt = id)
     (quizAttempts st) (quizAttempts st')
   /\ quizzes st' = map_delete id (quizzes st)
   /\ users st' = users st /\ conversations st' = conversations st
   /\ messages st' = messages st /\ flashcardSets st' = flashcardSets st
   /\ flashcards st' = flashcards st /\ notes st' = notes st
   /\ videoGenerations st' = videoGenerations st)
  /\
  (let st' := deleteConversation id st in
   removes_exactly
     (fun message => Message.conversationId message = Some (JStr id))
     (messages st) (messages st')
   /\ conversations st' = map_delete id (conversations st)
   /\ users st' = users st /\ flashcardSets st' = flashcardSets st
   /\ flashcards st' = flashcards st /\ notes st' = notes st
   /\ quizzes st' = quizzes st /\ quizAttempts st' = quizAttempts st
   /\ videoGenerations st' = videoGenerations st).
Proof.
  intros st. pose proof (history_ok now0 ops) as H. fold st in H.
  store_facts H.
  repeat split; simpl; trivial.
  - exists (fun card => negb (String.eqb (Flashcard.setId card) id)). split.
    + intros card. rewrite negb_true_iff.
      destruct (String.eqb_spec (Flashcard.setId card) id); split;
        congruence.
    + now apply delete_where_filter.
  - exists (fun a => negb (String.eqb (QuizAttempt.quizId a) id)). split.
    + intros a. rewrite negb_true_iff.
      destruct (String.eqb_spec (QuizAttempt.quizId a) id); split;
        congruence.
    + now apply delete_where_filter.
  - exists (fun m =>
              negb (strict_equals (Message.conversationId m) (Some (JStr id)))).
    split.
    + intros m. rewrite negb_true_iff, <- strict_equals_string.
      destruct (strict_equals (Message.conversationId m) (Some (JStr id)));
        split; congruence.
    + now apply delete_where_filter.
Qed.

(* ================================================================= *)
(** ** Listing by owner *)

Section SortFacts.
Variable A : Type.
Variable instant : A -> option Date.

Lemma newest_first_dated (a b : A) ta tb :
  instant a = Some ta -> instant b = Some tb ->
  newest_first instant a b = Ok (tb - ta).
Proof. unfold newest_first. intros -> ->. reflexivity. Qed.

Lemma not_older_trans (a b c : A) :
  not_older instant a b -> not_older instant b c -> not_older instant a c.
Proof.
  intros (ta & tb & Ha & Hb & Hab) (tb' & tc & Hb' & Hc & Hbc).
  exists ta, tc. repeat split; trivial.
  rewrite Hb in Hb'. injection Hb' as <-. lia.
Qed.

Lemma sort_insert_spec (x : A) (sorted : list A) :
  dated instant x -> Forall (dated instant) sorted ->
  StronglySorted (not_older instant) sorted ->
  exists placed,
    sort_insert (newest_first instant) x sorted = Ok placed
    /\ Permutation placed (x :: sorted)
    /\ StronglySorted (not_older instant) placed
    /\ forall t,
         filter (same_instant instant t) placed
         = filter (same_instant instant t) (x :: sorted).
Proof.
  intros [tx Hx]. induction sorted as [| y rest IH]; intros Hd Hs.
  - exists [x]. simpl. repeat split; auto.
    constructor; constructor.
  - inversion Hd as [| ? ? [ty Hy] Hd']; subst.
    inversion Hs as [| ? ? Hs' Hall]; subst.
    simpl. rewrite (newest_first_dated Hx Hy). simpl.
    destruct (ty - tx >? 0) eqn:Hc.
    + destruct (IH Hd' Hs') as (placed & -> & Hperm & Hsorted & Hstable).
      exists (y :: placed). simpl. split; [reflexivity |].
      split; [| split].
      * rewrite Hperm. apply perm_swap.
      * constructor; trivial.
        apply (Permutation_Forall (Permutation_sym Hperm)).
        constructor; trivial.
        exists ty, tx. repeat split; trivial. lia.
      * intros t. rewrite Hstable. simpl. unfold same_instant.
        rewrite Hx, Hy. simpl.
        destruct (ty =? t) eqn:E1, (tx =? t) eqn:E2; trivial.
        apply Z.eqb_eq in E1, E2. lia.
    + exists (x :: y :: rest). repeat split; trivial.
      constructor; trivial. constructor.
      * exists tx, ty. repeat split; trivial. lia.
      * eapply Forall_impl; [| exact Hall].
        intros z Hz. apply not_older_trans with y; trivial.
        exists tx, ty. repeat split; trivial. lia.
Qed.

(** On records that all have an instant, the sort returns, and what it
    returns is the newest-first stable arrangement of its input. *)
Lemma array_sort_newest_first (l : list A) :
  Forall (dated instant) l ->
  exists listing,
    array_sort (newest_first instant) l = Ok listing
    /\ newest_first_listing instant l listing.
Proof.
  unfold newest_first_listing.
  induction l as [| x rest IH]; intros Hd.
  - exists []. repeat split; trivial. constructor.
  - inversion Hd as [| ? ? Hx Hd']; subst.
    destruct (IH Hd') as (sorted & Hrun & Hperm & Hsorted & Hstable).
    assert (Hds : Forall (dated instant) sorted)
      by exact (Permutation_Forall (Permutation_sym Hperm) Hd').
    destruct (sort_insert_spec Hx Hds Hsorted)
      as (placed & Hins & Hperm' & Hsorted' & Hstable').
    exists placed. simpl. rewrite Hrun. simpl. rewrite Hins.
    split; [reflexivity |]. split; [| split]; trivial.
    + rewrite Hperm'. now constructor.
    + intros t. rewrite Hstable'. simpl. now rewrite Hstable.
Qed.

Lemma owner_listing_intro (owner : A -> string) (userId : string)
    (m : JsMap A) :
  has_instant instant m = true ->
  owner_listing owner instant userId (map_values m)
    (array_sort (newest_first instant)
       (filter (fun x => String.eqb (owner x) userId) (map_values m))).
Proof.
  intros H. apply has_instant_Forall in H.
  set (mine := filter (fun x => String.eqb (owner x) userId) (map_values m)).
  assert (Hd : Forall (dated instant) mine).
  { apply Forall_forall. intros x Hx. apply filter_In in Hx.
    rewrite Forall_forall in H. now apply H. }
  destruct (array_sort_newest_first Hd) as (listing & Hrun & Hl).
  exists listing. split; [exact Hrun |]. split; [| exact Hl].
  intros x. destruct Hl as (Hperm & _ & _). split.
  - intros Hin. apply (Permutation_in _ Hperm) in Hin.
    apply filter_In in Hin. destruct Hin as [Hin Ho].
    apply String.eqb_eq in Ho. tauto.
  - intros [Hin Ho]. apply (Permutation_in _ (Permutation_sym Hperm)).
    apply filter_In. split; trivial. now apply String.eqb_eq.
Qed.
End SortFacts.

(** C7.  In a store with any history and for every user id, each of the
    four list-by-owner methods returns a list holding exactly the stored
    records whose [userId] is the given one, ordered non-increasing by the
    updated-or-created instant (the created instant for quizzes), records
    of equal instant in insertion order. *)
Theorem list_by_owner_newest_first
    (now0 : Date) (ops : list StorageOp) (userId : string) :
  let st := run_ops ops (MemStorage_new now0) in
  owner_listing Conversation.userId conversation_instant userId
    (map_values (conversations st)) (getUserConversations userId st)
  /\ owner_listing FlashcardSet.userId flashcardSet_instant userId
       (map_values (flashcardSets st)) (getUserFlashcardSets userId st)
  /\ owner_listing Note.userId note_instant userId
       (map_values (notes st)) (getUserNotes userId st)
  /\ owner_listing Quiz.userId Quiz.createdAt userId
       (map_values (quizzes st)) (getUserQuizzes userId st).
Proof.
  intros st. pose proof (history_ok now0 ops) as H. fold st in H.
  store_facts H.
  repeat split; now apply owner_listing_intro.
Qed.

(* ================================================================= *)
(** ** Updates *)

(** C5, as the specification states it, fails: the update methods spread
    the payload over the stored record, and a payload may carry [id] and
    [createdAt].  Updating note [n1] with [{ id: "other", createdAt: null }]
    succeeds and returns a record with another identifier and no creation
    instant. *)
Lemma update_payload_replaces_identity :
  exists existing st' updated,
    getNote "n1" sample_store = Some existing
    /\ updateNote 50 "n1" renaming_payload sample_store = Ok (st', updated)
    /\ getNote "n1" st' = Some updated
    /\ Note.id existing = "n1" /\ Note.id updated = "other"
    /\ Note.id updated <> Note.id existing
    /\ Note.createdAt existing = Some 10 /\ Note.createdAt updated = None
    /\ Note.createdAt updated <> Note.createdAt existing.
Proof.
  do 3 eexists. repeat split; try reflexivity; simpl; discriminate.
Qed.

(** An update made at the instant already stored leaves the updated
    instant where it was: the instant advances with the clock, not with
    the call. *)
Lemma update_at_stored_instant :
  exists existing st' updated,
    getNote "n1" sample_store = Some existing
    /\ Note.updatedAt existing = Some 10
    /\ updateNote 10 "n1" renaming_payload sample_store = Ok (st', updated)
    /\ Note.updatedAt updated = Note.updatedAt existing.
Proof. do 3 eexists. repeat split; reflexivity. Qed.

(** C5, amended.  Every update method either rejects, when no record is
    stored under the identifier, or stores and returns a record whose
    identifier and creation instant are those of the stored record unless
    the payload carries the field, in which case they are the payload's.
    For conversations, flashcard sets and notes the update advances the
    updated instant whenever it is made at an instant later than the one
    stored: the result carries the instant of the update, whatever the
    payload carries. *)
Theorem update_identity_frame (st : MemStorage) (now : Date) (id : string) :
  (forall u,
     match updateConversation now id u st with
     | Ok (st', updated) =>
         exists existing,
           getConversation id st = Some existing
           /\ getConversation id st' = Some updated
           /\ Conversation.updatedAt updated = Some now
           /\ (forall stored,
                 Conversation.updatedAt existing = Some stored ->
                 stored < now ->
                 exists advanced,
                   Conversation.updatedAt updated = Some advanced
                   /\ stored < advanced)
           /\ match Conversation.p_id u with
              | None => Conversation.id updated = Conversation.id existing
              | Some id' => Conversation.id updated = id'
              end
           /\ match Conversation.p_createdAt u with
              | None =>
                  Conversation.createdAt updated
                  = Conversation.createdAt existing
              | Some at' => Conversation.createdAt updated = at'
              end
     | Throw _ => getConversation id st = None
     end)
  /\ (forall u,
        match updateFlashcardSet now id u st with
        | Ok (st', updated) =>
            exists existing,
              getFlashcardSet id st = Some existing
              /\ getFlashcardSet id st' = Some updated
              /\ FlashcardSet.updatedAt updated = Some now
              /\ (forall stored,
                    FlashcardSet.updatedAt existing = Some stored ->
                    stored < now ->
                    exists advanced,
                      FlashcardSet.updatedAt updated = Some advanced
                      /\ stored < advanced)
              /\ match FlashcardSet.p_id u with
                 | None => FlashcardSet.id updated = FlashcardSet.id existing
                 | Some id' => FlashcardSet.id updated = id'
                 end
              /\ match FlashcardSet.p_createdAt u with
                 | None =>
                     FlashcardSet.createdAt updated
                     = FlashcardSet.createdAt existing
                 | Some at' => FlashcardSet.createdAt updated = at'
                 end
        | Throw _ => getFlashcardSet id st = None
        end)
  /\ (forall u,
        match updateNote now id u st with
        | Ok (st', updated) =>
            exists existing,
              getNote id st = Some existing
              /\ getNote id st' = Some updated
              /\ Note.updatedAt updated = Some now
              /\ (forall stored,
                    Note.updatedAt existing = Some stored ->
                    stored < now ->
                    exists advanced,
                      Note.updatedAt updated = Some advanced
                      /\ stored < advanced)
              /\ match Note.p_id u with
                 | None => Note.id updated = Note.id existing
                 | Some id' => Note.id updated = id'
                 end
              /\ match Note.p_createdAt u with
                 | None => Note.createdAt updated = Note.createdAt existing
                 | Some at' => Note.createdAt updated = at'
                 end
        | Throw _ => getNote id st = None
        end)
  /\ (forall u,
        match updateFlashcard id u st with
        | Ok (st', updated) =>
            exists existing,
              map_get id (flashcards st) = Some existing
              /\ map_get id (flashcards st') = Some updated
              /\ match Flashcard.p_id u with
                 | None => Flashcard.id updated = Flashcard.id existing
                 | Some id' => Flashcard.id updated = id'
                 end
              /\ match Flashcard.p_createdAt u with
                 | None =>
                     Flashcard.createdAt updated = Flashcard.createdAt existing
                 | Some at' => Flashcard.createdAt updated = at'
                 end
        | Throw _ => map_get id (flashcards st) = None
        end)
  /\ (forall u,
        match updateVideoGeneration id u st with
        | Ok (st', updated) =>
            exists existing,
              getVideoGeneration id st = Some existing
              /\ getVideoGeneration id st' = Some updated
              /\ match VideoGeneration.p_id u with
                 | None =>
                     VideoGeneration.id updated = VideoGeneration.id existing
                 | Some id' => VideoGeneration.id updated = id'
                 end
              /\ match VideoGeneration.p_createdAt u with
                 | None =>
                     VideoGeneration.createdAt updated
                     = VideoGeneration.createdAt existing
                 | Some at' => VideoGeneration.createdAt updated = at'
                 end
        | Throw _ => getVideoGeneration id st = None
        end).
Proof.
  unfold updateConversation, updateFlashcardSet, updateNote, updateFlashcard,
    updateVideoGeneration, getConversation, getFlashcardSet, getNote,
    getVideoGeneration.
  split; [| split; [| split; [| split]]]; intros u;
    match goal with
    | |- context [map_get id ?m] =>
        destruct (map_get id m) as [existing |] eqn:E; trivial
    end;
    exists existing; simpl; rewrite map_get_set_same;
    repeat match goal with
           | |- _ /\ _ => split
           end;
    trivial;
    try (intros stored _ Hlater; exists now; split; [reflexivity | exact Hlater]);
    match goal with
    | |- match ?p with _ => _ end => destruct p; reflexivity
    end.
Qed.

(** Note [n1], last updated at instant 10, updated at instant 50. *)
Lemma update_identity_frame_witness :
  exists existing st' updated,
    getNote "n1" sample_store = Some existing
    /\ updateNote 50 "n1" renaming_payload sample_store = Ok (st', updated)
    /\ Note.updatedAt existing = Some 10
    /\ exists advanced,
         Note.updatedAt updated = Some advanced /\ 10 < advanced.
Proof.
  destruct (update_identity_frame sample_store 50 "n1")
    as (_ & _ & Hnote & _).
  specialize (Hnote renaming_payload).
  destruct (updateNote 50 "n1" renaming_payload sample_store)
    as [[st' updated] | e] eqn:Hrun; [| discriminate Hnote].
  destruct Hnote as (existing & Hget & _ & _ & Hadvance & _).
  exists existing, st', updated.
  split; [exact Hget |]. split; [reflexivity |].
  assert (Hstored : Note.updatedAt existing = Some 10)
    by (vm_compute in Hget; now injection Hget as <-).
  split; [exact Hstored |].
  apply (Hadvance 10 Hstored). lia.
Defined.

(* ================================================================= *)
(** ** The video generation lifecycle *)

(** No method of the store removes a video generation. *)
Lemma video_kept_by_op (op : StorageOp) (st : MemStorage) (id : string) :
  map_has id (videoGenerations st) = true ->
  map_has id (videoGenerations (run_op op st)) = true.
Proof.
  intros H.
  destruct op; simpl; trivial;
    try (unfold updateConversation, updateFlashcardSet, updateFlashcard,
           updateNote, updateVideoGeneration;
         match goal with
         | |- context [map_get ?k ?m] => destruct (map_get k m); simpl
         end; trivial);
    now apply map_has_set.
Qed.

Lemma video_kept_by_ops (ops : list StorageOp) (st : MemStorage) (id : string) :
  map_has id (videoGenerations st) = true ->
  map_has id (videoGenerations (run_ops ops st)) = true.
Proof.
  unfold run_ops. revert st.
  induction ops as [| op ops IH]; simpl; intros st H; trivial.
  apply IH. now apply video_kept_by_op.
Qed.

(** The timer callback on a store that holds the video. *)
Lemma timeout_completes (P : Platform) (id : string) (w : World) :
  map_has id (videoGenerations (storage w)) = true ->
  exists done w',
    video_generation_timeout P id w = (Ok tt, w')
    /\ getVideoGeneration id (storage w') = Some done
    /\ VideoGeneration.status done = "completed"
    /\ VideoGeneration.videoUrl done
       = Some ("https://example.com/videos/" ++ id ++ ".mp4")
    /\ VideoGeneration.thumbnailUrl done
       = Some ("https://example.com/thumbnails/" ++ id ++ ".jpg")
    /\ VideoGeneration.completedAt done = Some (clock P (dates_taken w)).
Proof.
  unfold map_has. intros H.
  destruct (map_get id (videoGenerations (storage w))) as [existing |] eqn:E;
    [| discriminate].
  unfold video_generation_timeout, try_catch, bind, new_Date, updating,
    updateVideoGeneration, getVideoGeneration.
  simpl. rewrite E. simpl.
  do 2 eexists. split; [reflexivity |].
  simpl. rewrite map_get_set_same. repeat split.
Qed.

(** C9.  Creating a video generation answers 200 with a record whose
    status is [pending] and whose [videoUrl], [thumbnailUrl] and
    [completedAt] are null, and arms a timer for it.  Whatever calls reach
    the store in the meantime, once that timer has fired a fetch of the
    same identifier answers 200 with a record whose status is [completed]
    and whose [videoUrl], [thumbnailUrl] and [completedAt] are set. *)
Theorem video_generation_lifecycle
    (P : Platform) (w : World) (data : VideoGeneration.insert) :
  exists video w1,
    post_video_generations P (Ok data) w
    = (Ok (mkResponse 200 (VideoBody video)), w1)
    /\ VideoGeneration.status video = "pending"
    /\ VideoGeneration.videoUrl video = None
    /\ VideoGeneration.thumbnailUrl video = None
    /\ VideoGeneration.completedAt video = None
    /\ getVideoGeneration (VideoGeneration.id video) (storage w1) = Some video
    /\ timers w1 = (timers w ++ [VideoGeneration.id video])%list
    /\ forall (ops : list StorageOp) (uuids dates : nat)
         (calls : list ProviderCall) (frames : list Frame)
         (logged : list string) (later : list string),
         let w2 :=
           mkWorld (run_ops ops (storage w1)) uuids dates calls frames logged
             (VideoGeneration.id video :: later) in
         exists done w3 url thumbnail at_,
           fire_timeout P w2 = (Ok tt, w3)
           /\ get_video_generation (VideoGeneration.id video) w3
              = (Ok (mkResponse 200 (VideoBody done)), w3)
           /\ VideoGeneration.status done = "completed"
           /\ VideoGeneration.videoUrl done = Some url
           /\ VideoGeneration.thumbnailUrl done = Some thumbnail
           /\ VideoGeneration.completedAt done = Some at_.
Proof.
  do 2 eexists. split; [reflexivity |]. simpl.
  repeat split; trivial.
  - apply map_get_set_same.
  - intros ops uuids dates calls frames logged later.
    set (id := randomUUID P (uuids_drawn w)).
    match goal with
    | |- context [run_ops ops ?s] => set (st1 := s)
    end.
    assert (Hhas : map_has id (videoGenerations (run_ops ops st1)) = true).
    { apply video_kept_by_ops. unfold map_has, st1. simpl.
      now rewrite map_get_set_same. }
    destruct (timeout_completes P id
                (mkWorld (run_ops ops st1) uuids dates calls frames logged
                   later) Hhas)
      as (done & w3 & Hrun & Hget & Hs & Hv & Ht & Hc).
    exists done, w3. do 3 eexists.
    split; [exact Hrun |]. split; [| repeat split; eassumption].
    unfold get_video_generation, try_catch, bind, reading, ret.
    now rewrite Hget.
Qed.

(* ================================================================= *)
(** ** The chat relay *)

Lemma field_of_object (message : json) (key : string) (v : json) :
  field_of message key = Some v -> exists fields, message = JObj fields.
Proof. destruct message; simpl; try discriminate. intros _. now eexists. Qed.


(** The provider selection, run symbolically. *)
Lemma ai_response_by_prefix (P : Platform) (model : string) (content : any)
    (w : World) :
  ai_response P (Some (JStr model)) content w
  = match provider_for model with
    | Some p =>
        match provider_reply P (List.length (provider_calls w))
                (mkCall p content) with
        | Replied text =>
            (Ok (text_or text "Sorry, I couldn't generate a response."),
             with_call (mkCall p content) w)
        | Failed e => (Throw e, with_call (mkCall p content) w)
        end
    | None => (Ok "Model not supported", w)
    end.
Proof.
  unfold ai_response, provider_for, bind, liftR, provider_request, ret,
    with_call.
  simpl. destruct (startsWith model "gpt").
  - destruct (provider_reply _ _ _); reflexivity.
  - destruct (startsWith model "claude"); [| reflexivity].
    destruct (provider_reply _ _ _); reflexivity.
Qed.

(** Selecting and calling a provider touches nothing but the record of
    provider requests. *)
Lemma ai_response_frame (P : Platform) (model content : any) (w : World) :
  let w' := snd (ai_response P model content w) in
  storage w' = storage w /\ sent w' = sent w
  /\ uuids_drawn w' = uuids_drawn w /\ dates_taken w' = dates_taken w
  /\ console w' = console w /\ timers w' = timers w.
Proof.
  unfold ai_response, bind, liftR, provider_request, ret.
  destruct (call_startsWith model "gpt") as [[|] | e]; simpl.
  - destruct (provider_reply _ _ _); simpl; tauto.
  - destruct (call_startsWith model "claude") as [[|] | e]; simpl;
      try tauto.
    destruct (provider_reply _ _ _); simpl; tauto.
  - tauto.
Qed.

(** One chat frame, run symbolically up to the provider selection. *)
Lemma on_message_chat_frame (P : Platform) (w : World) (data : string)
    (fields : list (string * json)) :
  JSON_parse P data = Ok (JObj fields) ->
  assoc "type" fields = Some (JStr "chat_message") ->
  let conversationId := assoc "conversationId" fields in
  let content := assoc "content" fields in
  let id1 := randomUUID P (uuids_drawn w) in
  let now1 := clock P (dates_taken w) in
  let inbound := inbound_message id1 now1 conversationId content in
  let w1 :=
    mkWorld
      (with_messages (map_set id1 inbound (messages (storage w))) (storage w))
      (S (uuids_drawn w)) (S (dates_taken w)) (provider_calls w)
      (sent w ++ [Typing true])%list (console w) (timers w) in
  on_message P data w
  = match ai_response P (assoc "model" fields) content w1 with
    | (Ok aiResponse, w2) =>
        let saved :=
          Message.mk (randomUUID P (uuids_drawn w2)) conversationId
            "assistant" (Some (JStr aiResponse)) (Some JNull)
            (Some (clock P (dates_taken w2))) in
        (Ok tt,
         mkWorld
           (with_messages
              (map_set (Message.id saved) saved (messages (storage w2)))
              (storage w2))
           (S (uuids_drawn w2)) (S (dates_taken w2)) (provider_calls w2)
           ((sent w2 ++ [Typing false]) ++ [ChatMessage saved])%list
           (console w2) (timers w2))
    | (Throw e, w2) =>
        (Ok tt,
         mkWorld (storage w2) (uuids_drawn w2) (dates_taken w2)
           (provider_calls w2)
           (sent w2 ++ [ErrorFrame ("Failed to get AI response: " ++ e)])%list
           (console w2) (timers w2))
    end.
Proof.
  intros Hparse Htype. cbv zeta.
  unfold on_message, try_catch at 1, bind at 1, liftR at 1.
  rewrite Hparse.
  unfold bind at 1, liftR at 1, get_prop at 1. rewrite Htype.
  unfold strict_equals. rewrite String.eqb_refl.
  cbv beta iota zeta delta
    [chat_message bind liftR get_prop creating new_uuid new_Date ws_send
     try_catch createMessage set_storage inbound_message ret
     storage uuids_drawn dates_taken provider_calls sent console timers
     Message.i_conversationId Message.i_role Message.i_content
     Message.i_attachments Message.id].
  destruct (ai_response P (assoc "model" fields) (assoc "content" fields) _)
    as [[aiResponse | e] w2]; reflexivity.
Qed.

(** C2.  When the provider selected for a chat frame fails, the relay sends
    the typing indicator and then the frame
    [{type:"error", message:"Failed to get AI response: " + details}]; the
    store is the earlier store plus the user's message, which stays under
    its identifier with role [user]; and every assistant-role message in
    the store was already there, so none was persisted for this frame. *)
Theorem provider_failure_keeps_user_message
    (P : Platform) (w : World) (data : string) (message : json)
    (model : string) (p : Provider) (details : string) :
  JSON_parse P data = Ok message ->
  field_of message "type" = Some (JStr "chat_message") ->
  field_of message "model" = Some (JStr model) ->
  provider_for model = Some p ->
  provider_reply P (List.length (provider_calls w))
    (mkCall p (field_of message "content")) = Failed details ->
  let id1 := randomUUID P (uuids_drawn w) in
  let inbound :=
    inbound_message id1 (clock P (dates_taken w))
      (field_of message "conversationId") (field_of message "content") in
  exists w',
    on_message P data w = (Ok tt, w')
    /\ sent w'
       = (sent w
          ++ [Typing true;
              ErrorFrame ("Failed to get AI response: " ++ details)])%list
    /\ storage w'
       = with_messages (map_set id1 inbound (messages (storage w)))
           (storage w)
    /\ map_get id1 (messages (storage w')) = Some inbound
    /\ Message.role inbound = "user"
    /\ forall id m,
         map_get id (messages (storage w')) = Some m ->
         Message.role m = "assistant" ->
         map_get id (messages (storage w)) = Some m.
Proof.
  intros Hparse Htype Hmodel Hprov Hreply id1 inbound.
  destruct (field_of_object _ _ Htype) as [fields ->]. simpl in *.
  rewrite (on_message_chat_frame P w data Hparse Htype).
  rewrite Hmodel, ai_response_by_prefix, Hprov. simpl.
  rewrite Hreply. simpl.
  eexists. split; [reflexivity |]. simpl.
  split; [now rewrite <- app_assoc |].
  split; [reflexivity |].
  split; [apply map_get_set_same |].
  split; [reflexivity |].
  intros id m Hget Hrole.
  destruct (string_dec id id1) as [-> | Hne].
  - rewrite map_get_set_same in Hget. injection Hget as <-. discriminate.
  - now rewrite map_get_set_other in Hget.
Qed.

Lemma provider_failure_keeps_user_message_witness :
  exists w',
    on_message sample_platform "chat-gpt" (later_world sample_store)
    = (Ok tt, w')
    /\ sent w'
       = [Typing true; ErrorFrame "Failed to get AI response: rate limited"]
    /\ map_values (messages (storage w'))
       = [inbound_message "id-0" 1000 (Some (JStr "c1"))
            (Some (JStr "hello"))].
Proof.
  destruct
    (provider_failure_keeps_user_message sample_platform
       (later_world sample_store) "chat-gpt" (model := "gpt-5") (p := OpenAI)
       (details := "rate limited")
       eq_refl eq_refl eq_refl eq_refl eq_refl)
    as (w' & Hrun & Hsent & Hstore & _).
  exists w'. split; [exact Hrun |]. split; [exact Hsent |].
  rewrite Hstore. reflexivity.
Defined.



(** A chat frame whose [model] is not a string is outside the frame shape
    the relay documents; [model.startsWith] then throws inside the inner
    [try], no provider is called, and the sender gets the error frame. *)
Lemma model_not_a_string (P : Platform) (w : World) (data : string)
    (fields : list (string * json)) :
  JSON_parse P data = Ok (JObj fields) ->
  assoc "type" fields = Some (JStr "chat_message") ->
  (forall s, assoc "model" fields <> Some (JStr s)) ->
  exists w' e,
    on_message P data w = (Ok tt, w')
    /\ call_startsWith (assoc "model" fields) "gpt" = Throw e
    /\ sent w'
       = (sent w
          ++ [Typing true; ErrorFrame ("Failed to get AI response: " ++ e)])%list
    /\ provider_calls w' = provider_calls w.
Proof.
  intros Hparse Htype Hmodel.
  rewrite (on_message_chat_frame P w data Hparse Htype).
  unfold ai_response, bind, liftR.
  destruct (assoc "model" fields) as [[| b | n | s | items | fs] |];
    try (now destruct (Hmodel s));
    simpl; do 2 eexists; (split; [reflexivity |]);
    (split; [reflexivity |]); simpl; now rewrite <- app_assoc.
Qed.

(** C8.  A frame that [JSON.parse] rejects, or that parses to a value
    whose [type] is not [chat_message], leaves the store and the frames
    sent on the socket as they were; no provider is called and no
    identifier or instant is drawn. *)
Theorem ignored_frame_changes_nothing
    (P : Platform) (w : World) (data : string) :
  (exists e, JSON_parse P data = Throw e)
  \/ (exists message,
        JSON_parse P data = Ok message
        /\ field_of message "type" <> Some (JStr "chat_message")) ->
  exists w',
    on_message P data w = (Ok tt, w')
    /\ storage w' = storage w
    /\ sent w' = sent w
    /\ provider_calls w' = provider_calls w
    /\ uuids_drawn w' = uuids_drawn w
    /\ dates_taken w' = dates_taken w.
Proof.
  unfold on_message, try_catch, bind, liftR, console_error, ret.
  intros [[e He] | [message [Hparse Htype]]].
  - rewrite He. eexists. repeat split.
  - rewrite Hparse.
    destruct message as [| b | n | s | items | fields]; simpl;
      try (eexists; repeat split; fail).
    simpl in Htype.
    destruct (strict_equals (assoc "type" fields)
                (Some (JStr "chat_message"))) eqn:E.
    + apply strict_equals_string in E. contradiction.
    + eexists. repeat split.
Qed.

Lemma ignored_frame_changes_nothing_witness :
  exists w',
    on_message sample_platform "garbage" (empty_world sample_store)
    = (Ok tt, w')
    /\ storage w' = sample_store /\ sent w' = [].
Proof.
  destruct
    (ignored_frame_changes_nothing sample_platform (empty_world sample_store)
       "garbage"
       (or_introl (ex_intro _ "Unexpected token" eq_refl)))
    as (w' & Hrun & Hstore & Hsent & _).
  exists w'. repeat split; assumption.
Defined.

(** C10.  For every chat frame, whatever [role] and [attachments] it
    carries, the message persisted for it has role [user] and null
    attachments, with the frame's [conversationId] and [content]: it is in
    the store under the identifier drawn for it once the frame is handled
    (the next identifier drawn being a different one).  Two chat frames
    that agree on [conversationId], [content] and [model] are handled
    identically. *)
Theorem inbound_message_is_user_role
    (P : Platform) (w : World) (data : string) (message : json) :
  JSON_parse P data = Ok message ->
  field_of message "type" = Some (JStr "chat_message") ->
  randomUUID P (uuids_drawn w) <> randomUUID P (S (uuids_drawn w)) ->
  let id1 := randomUUID P (uuids_drawn w) in
  exists w' inbound,
    on_message P data w = (Ok tt, w')
    /\ map_get id1 (messages (storage w')) = Some inbound
    /\ Message.role inbound = "user"
    /\ Message.attachments inbound = Some JNull
    /\ Message.conversationId inbound = field_of message "conversationId"
    /\ Message.content inbound = field_of message "content"
    /\ forall data2 message2,
         JSON_parse P data2 = Ok message2 ->
         field_of message2 "type" = Some (JStr "chat_message") ->
         field_of message2 "conversationId"
         = field_of message "conversationId" ->
         field_of message2 "content" = field_of message "content" ->
         field_of message2 "model" = field_of message "model" ->
         on_message P data2 w = on_message P data w.
Proof.
  intros Hparse Htype Hfresh id1.
  destruct (field_of_object _ _ Htype) as [fields ->]. simpl in *.
  assert (Hsame :
    forall data2 message2,
      JSON_parse P data2 = Ok message2 ->
      field_of message2 "type" = Some (JStr "chat_message") ->
      field_of message2 "conversationId" = assoc "conversationId" fields ->
      field_of message2 "content" = assoc "content" fields ->
      field_of message2 "model" = assoc "model" fields ->
      on_message P data2 w = on_message P data w).
  { intros data2 message2 Hparse2 Htype2 Hc Hk Hm.
    destruct (field_of_object _ _ Htype2) as [fields2 ->]. simpl in *.
    rewrite (on_message_chat_frame P w data Hparse Htype).
    rewrite (on_message_chat_frame P w data2 Hparse2 Htype2).
    now rewrite Hc, Hk, Hm. }
  assert (Hmain :
    exists w' inbound,
      on_message P data w = (Ok tt, w')
      /\ map_get id1 (messages (storage w')) = Some inbound
      /\ Message.role inbound = "user"
      /\ Message.attachments inbound = Some JNull
      /\ Message.conversationId inbound = assoc "conversationId" fields
      /\ Message.content inbound = assoc "content" fields).
  { rewrite (on_message_chat_frame P w data Hparse Htype).
    match goal with
    | |- context [ai_response P ?m ?c ?w1] =>
        pose proof (ai_response_frame P m c w1) as Hframe;
        destruct (ai_response P m c w1) as [[aiResponse | e] w2]
    end;
      simpl in Hframe; destruct Hframe as (Hst & _ & Hu & _);
      do 2 eexists; (split; [reflexivity |]); simpl; rewrite Hst; simpl.
    - rewrite Hu. rewrite map_get_set_other by exact Hfresh.
      rewrite map_get_set_same. repeat split.
    - rewrite map_get_set_same. repeat split. }
  destruct Hmain as (w' & inbound & Hrun & Hget & Hrole & Hatt & Hc & Hk).
  exists w', inbound. repeat split; trivial.
Qed.

Lemma inbound_message_is_user_role_witness :
  exists w' inbound,
    on_message sample_platform "chat-gpt" (empty_world sample_store)
    = (Ok tt, w')
    /\ map_get "id-0" (messages (storage w')) = Some inbound
    /\ Message.role inbound = "user"
    /\ Message.attachments inbound = Some JNull.
Proof.
  destruct
    (inbound_message_is_user_role sample_platform (empty_world sample_store)
       "chat-gpt" eq_refl eq_refl
       ltac:(vm_compute; discriminate))
    as (w' & inbound & Hrun & Hget & Hrole & Hatt & _).
  exists w', inbound. repeat split; assumption.
Defined.

(* ================================================================= *)
(** ** Quiz scoring *)

Lemma get_prop_truthy (question : json) (key : string) :
  truthy (Some question) = true ->
  get_prop (Some question) key = Ok (field_of question key).
Proof. destruct question; simpl; try discriminate; reflexivity. Qed.

Lemma equals_correct_truthy (answer question : json) :
  equals_correct answer question -> truthy (Some question) = true.
Proof.
  unfold equals_correct, correctAnswer_of.
  destruct question; simpl; try discriminate. reflexivity.
Qed.

(** The grading callback adds one exactly when the answer is a primitive
    value equal to the stored correct answer. *)
Lemma grade_answer_spec (questions : list json) (index : nat)
    (question answer : json) (score : Z) :
  nth_error questions index = Some question ->
  (primitive_equals_correct answer question ->
   grade_answer (Some (JArr questions)) answer index score = Ok (score + 1))
  /\ (~ primitive_equals_correct answer question ->
      grade_answer (Some (JArr questions)) answer index score = Ok score).
Proof.
  intros Hnth. unfold grade_answer, get_index. rewrite Hnth. cbn [bindR].
  unfold primitive_equals_correct. split.
  - intros [Hprim Heq].
    rewrite (equals_correct_truthy Heq).
    rewrite get_prop_truthy by exact (equals_correct_truthy Heq).
    cbn [bindR]. fold (correctAnswer_of question). rewrite <- Heq.
    now rewrite strict_equals_primitive.
  - intros Hno. destruct (truthy (Some question)) eqn:Ht; trivial.
    rewrite get_prop_truthy by exact Ht. cbn [bindR].
    fold (correctAnswer_of question).
    destruct (strict_equals (Some answer) (correctAnswer_of question)) eqn:E;
      trivial.
    apply strict_equals_Some_true in E. destruct E as [Hp Hc].
    exfalso. apply Hno. split; congruence.
Qed.

(** The loop, started at the position behind [before]. *)
Lemma grade_from_spec (answers questions : list json) (k : nat) :
  positions_hit primitive_equals_correct answers questions k ->
  forall (before : list json) (score : Z),
    grade_from (Some (JArr (before ++ questions))) answers
      (List.length before) score
    = Ok (score + Z.of_nat k).
Proof.
  induction 1 as [| answer question answers questions k Hhit _ IH
                  | answer question answers questions k Hmiss _ IH];
    intros before score.
  - simpl. f_equal. lia.
  - assert (Hnth : nth_error (before ++ question :: questions)
                     (List.length before) = Some question).
    { rewrite nth_error_app2, Nat.sub_diag by lia. reflexivity. }
    cbn [grade_from].
    rewrite (proj1 (@grade_answer_spec _ _ _ answer score Hnth) Hhit). cbn [bindR].
    specialize (IH (before ++ [question])%list (score + 1)).
    rewrite length_app, <- app_assoc in IH. simpl in IH.
    rewrite Nat.add_1_r in IH. rewrite IH. f_equal. lia.
  - assert (Hnth : nth_error (before ++ question :: questions)
                     (List.length before) = Some question).
    { rewrite nth_error_app2, Nat.sub_diag by lia. reflexivity. }
    cbn [grade_from].
    rewrite (proj2 (@grade_answer_spec _ _ _ answer score Hnth) Hmiss). cbn [bindR].
    specialize (IH (before ++ [question])%list score).
    rewrite length_app, <- app_assoc in IH. simpl in IH.
    rewrite Nat.add_1_r in IH. exact IH.
Qed.

Lemma positions_hit_length (hit : json -> json -> Prop)
    (answers questions : list json) (k : nat) :
  positions_hit hit answers questions k ->
  List.length answers = List.length questions /\ (k <= List.length answers)%nat.
Proof. induction 1; simpl; lia. Qed.

(** Two lists of one length have a count, and only one. *)
Lemma positions_hit_total (answers questions : list json) :
  List.length answers = List.length questions ->
  exists k, positions_hit primitive_equals_correct answers questions k.
Proof.
  revert questions.
  induction answers as [| answer answers IH]; intros [| question questions] Hlen;
    try discriminate.
  - exists 0%nat. constructor.
  - injection Hlen as Hlen. destruct (IH _ Hlen) as [k Hk].
    destruct (strict_equals (Some answer) (correctAnswer_of question)) eqn:E.
    + exists (S k). apply hit_yes; trivial.
      apply strict_equals_Some_true in E. destruct E. split; congruence.
    + exists k. apply hit_no; trivial. intros [Hp Hc].
      assert (strict_equals (Some answer) (correctAnswer_of question) = true)
        by (apply strict_equals_Some_true; split; congruence).
      congruence.
Qed.

Lemma positions_hit_unique (hit : json -> json -> Prop)
    (answers questions : list json) (k k' : nat) :
  positions_hit hit answers questions k ->
  positions_hit hit answers questions k' -> k = k'.
Proof.
  intros H. revert k'.
  induction H; intros k' H'; inversion H'; subst; trivial;
    try contradiction; auto.
Qed.

(** C1, as the specification states it, fails: the handler compares with
    [===], which tells two arrays apart even when they hold the same
    elements.  Quiz [q2] has one question whose stored correct answer is
    the array [[0]]; the submitted answer [[0]] equals it, so one position
    agrees, and the attempt is graded 0 of 1. *)
Lemma array_answer_scores_nothing :
  let answers := [JArr [JNum 0]] in
  let questions := [question_with (JArr [JNum 0])] in
  exists quiz attempt w',
    getQuiz "q2" sample_store = Some quiz
    /\ Quiz.questions quiz = Some (JArr questions)
    /\ positions_hit equals_correct answers questions 1
    /\ post_quiz_attempts sample_platform "q2" (answers_body answers)
         (empty_world sample_store)
       = (Ok (mkResponse 200 (AttemptBody attempt)), w')
    /\ QuizAttempt.score attempt = 0
    /\ QuizAttempt.score attempt <> 1.
Proof.
  do 3 eexists.
  split; [reflexivity |]. split; [reflexivity |].
  split; [apply hit_yes; [reflexivity | constructor] |].
  split; [reflexivity |].
  split; [reflexivity | discriminate].
Qed.

(** C1, amended.  For a stored quiz whose questions are a list of length N
    and a submitted answer array of length N, the handler answers 200 with
    an attempt, stored under its identifier, whose score is the number of
    positions i at which [answers[i]] is a number, string, boolean or null
    equal to [questions[i].correctAnswer], and whose [totalQuestions] is
    N. *)
Theorem quiz_attempt_score
    (P : Platform) (w : World) (id : string) (body : json) (quiz : Quiz.t)
    (questions answers : list json) (k : nat) :
  getQuiz id (storage w) = Some quiz ->
  Quiz.questions quiz = Some (JArr questions) ->
  field_of body "answers" = Some (JArr answers) ->
  positions_hit primitive_equals_correct answers questions k ->
  exists attempt w',
    post_quiz_attempts P id (Some body) w
    = (Ok (mkResponse 200 (AttemptBody attempt)), w')
    /\ QuizAttempt.score attempt = Z.of_nat k
    /\ QuizAttempt.totalQuestions attempt
       = Some (JNum (Z.of_nat (List.length questions)))
    /\ List.length answers = List.length questions
    /\ QuizAttempt.quizId attempt = id
    /\ QuizAttempt.answers attempt = Some (JArr answers)
    /\ map_get (QuizAttempt.id attempt) (quizAttempts (storage w'))
       = Some attempt.
Proof.
  intros Hquiz Hquestions Hanswers Hhits.
  destruct (field_of_object _ _ Hanswers) as [fields ->]. simpl in Hanswers.
  pose proof (grade_from_spec Hhits [] 0) as Hgrade. simpl in Hgrade.
  unfold post_quiz_attempts, try_catch, bind at 1, liftR at 1, get_prop.
  rewrite Hanswers.
  unfold bind at 1, reading at 1. rewrite Hquiz.
  unfold bind at 1, liftR at 1, call_forEach.
  unfold bind at 1, liftR at 1. rewrite Hquestions, Hgrade.
  unfold bind at 1, liftR at 1, get_length.
  cbv beta iota zeta delta
    [bind creating new_uuid new_Date ret createQuizAttempt set_storage
     storage uuids_drawn dates_taken provider_calls sent console timers
     QuizAttempt.i_quizId QuizAttempt.i_userId QuizAttempt.i_answers
     QuizAttempt.i_score QuizAttempt.i_totalQuestions].
  do 2 eexists. split; [reflexivity |].
  cbn [QuizAttempt.score QuizAttempt.totalQuestions QuizAttempt.quizId
       QuizAttempt.answers QuizAttempt.id storage quizAttempts
       with_quizAttempts].
  repeat split.
  - apply (positions_hit_length Hhits).
  - apply map_get_set_same.
Qed.

(** The specification's example: correct answers 0, 1, 2 and submitted
    answers 0, 1, 1 give score 2 of 3. *)
Lemma quiz_attempt_score_witness :
  exists attempt w',
    post_quiz_attempts sample_platform "q1"
      (answers_body [JNum 0; JNum 1; JNum 1]) (empty_world sample_store)
    = (Ok (mkResponse 200 (AttemptBody attempt)), w')
    /\ QuizAttempt.score attempt = 2
    /\ QuizAttempt.totalQuestions attempt = Some (JNum 3).
Proof.
  assert (Hhits :
    positions_hit primitive_equals_correct
      [JNum 0; JNum 1; JNum 1]
      [question_with (JNum 0); question_with (JNum 1);
       question_with (JNum 2)] 2).
  { apply hit_yes; [split; reflexivity |].
    apply hit_yes; [split; reflexivity |].
    apply hit_no; [intros [_ H]; discriminate H | constructor]. }
  destruct
    (quiz_attempt_score sample_platform (empty_world sample_store)
       "q1" (JObj [("answers", JArr [JNum 0; JNum 1; JNum 1])])
       eq_refl eq_refl eq_refl Hhits)
    as (attempt & w' & Hrun & Hscore & Htotal & _).
  exists attempt, w'. repeat split; assumption.
Defined.

(* ================================================================= *)
(** ** Generation helpers *)




Section Generation.
Variable P : Platform.
Variable w : World.
Variable text : option string.
Hypothesis reply :
  forall call,
    provider_reply P (List.length (provider_calls w)) call = Replied text.



End Generation.




(* ================================================================= *)
(** * Further properties of the store *)

(** ** Lookup after create, update and delete *)

(** X1.  Each create method stores the record it returns under the
    identifier it was given, so that the matching get returns that record,
    and it leaves what every other identifier gets unchanged. *)
Theorem create_then_get
    (st : MemStorage) (id other : string) (now : Date) :
  other <> id ->
  (forall ins,
     let (st', user) := createUser id now ins st in
     getUser id st' = Some user /\ User.id user = id
     /\ getUser other st' = getUser other st)
  /\ (forall ins,
        let (st', conversation) := createConversation id now ins st in
        getConversation id st' = Some conversation
        /\ Conversation.id conversation = id
        /\ getConversation other st' = getConversation other st)
  /\ (forall ins,
        let (st', set) := createFlashcardSet id now ins st in
        getFlashcardSet id st' = Some set /\ FlashcardSet.id set = id
        /\ getFlashcardSet other st' = getFlashcardSet other st)
  /\ (forall ins,
        let (st', note) := createNote id now ins st in
        getNote id st' = Some note /\ Note.id note = id
        /\ getNote other st' = getNote other st)
  /\ (forall ins,
        let (st', quiz) := createQuiz id now ins st in
        getQuiz id st' = Some quiz /\ Quiz.id quiz = id
        /\ getQuiz other st' = getQuiz other st)
  /\ (forall ins,
        let (st', video) := createVideoGeneration id now ins st in
        getVideoGeneration id st' = Some video
        /\ VideoGeneration.id video = id
        /\ getVideoGeneration other st' = getVideoGeneration other st).
Proof.
  intros Hne.
  unfold getUser, getConversation, getFlashcardSet, getNote, getQuiz,
    getVideoGeneration.
  repeat split; simpl;
    first [apply map_get_set_same | now apply map_get_set_other].
Qed.

Lemma create_then_get_witness :
  getNote "n2" (fst (createNote "n2" 20 sample_note sample_store))
  = Some (snd (createNote "n2" 20 sample_note sample_store))
  /\ getNote "n1" (fst (createNote "n2" 20 sample_note sample_store))
     = getNote "n1" sample_store.
Proof.
  destruct (create_then_get sample_store (id := "n2") (other := "n1") 20
              ltac:(discriminate))
    as (_ & _ & _ & Hnote & _).
  specialize (Hnote sample_note).
  destruct (createNote "n2" 20 sample_note sample_store) as [st' note].
  simpl. tauto.
Defined.

Lemma map_get_delete_same {V : Type} (k : string) (m : JsMap V) :
  map_get k (map_delete k m) = None.
Proof.
  unfold map_get, map_delete. apply assoc_not_in.
  unfold map_keys. rewrite in_map_iff. intros [e [He Hin]].
  apply filter_In in Hin. destruct Hin as [_ Hk]. subst.
  now rewrite String.eqb_refl in Hk.
Qed.

Lemma filter_twice {A : Type} (f : A -> bool) (l : list A) :
  filter f (filter f l) = filter f l.
Proof.
  induction l as [| x l IH]; simpl; trivial.
  destruct (f x) eqn:E; simpl; [rewrite E; now f_equal | exact IH].
Qed.

Lemma map_delete_twice {V : Type} (k : string) (m : JsMap V) :
  map_delete k (map_delete k m) = map_delete k m.
Proof. apply filter_twice. Qed.

Lemma delete_where_twice {V : Type} (doomed : V -> bool) (m : JsMap V) :
  map_ok m = true ->
  delete_where doomed (delete_where doomed m) = delete_where doomed m.
Proof.
  intros H. rewrite (delete_where_filter doomed m H).
  rewrite delete_where_filter by now apply map_ok_filter.
  apply filter_twice.
Qed.

(** Deleting twice is deleting once, in a store with any history. *)
Lemma deletes_twice (now0 : Date) (ops : list StorageOp) (id : string) :
  let st := run_ops ops (MemStorage_new now0) in
  deleteConversation id (deleteConversation id st) = deleteConversation id st
  /\ deleteFlashcardSet id (deleteFlashcardSet id st)
     = deleteFlashcardSet id st
  /\ deleteQuiz id (deleteQuiz id st) = deleteQuiz id st
  /\ deleteNote id (deleteNote id st) = deleteNote id st
  /\ deleteFlashcard id (deleteFlashcard id st) = deleteFlashcard id st.
Proof.
  intros st. pose proof (history_ok now0 ops) as H. fold st in H.
  store_facts H.
  unfold deleteConversation, deleteFlashcardSet, deleteQuiz, deleteNote,
    deleteFlashcard, with_conversations, with_messages, with_flashcardSets,
    with_flashcards, with_quizzes, with_quizAttempts, with_notes.
  simpl.
  repeat split;
    rewrite ?map_delete_twice, ?delete_where_twice by assumption;
    reflexivity.
Qed.

(** X2.  In a store with any history every delete method is idempotent,
    cascade included: after it the identifier gets nothing, and deleting
    the same identifier again leaves the store exactly as the first delete
    left it. *)
Theorem delete_is_idempotent
    (now0 : Date) (ops : list StorageOp) (id : string) :
  let st := run_ops ops (MemStorage_new now0) in
  (getConversation id (deleteConversation id st) = None
   /\ deleteConversation id (deleteConversation id st)
      = deleteConversation id st)
  /\ (getFlashcardSet id (deleteFlashcardSet id st) = None
      /\ deleteFlashcardSet id (deleteFlashcardSet id st)
         = deleteFlashcardSet id st)
  /\ (getQuiz id (deleteQuiz id st) = None
      /\ deleteQuiz id (deleteQuiz id st) = deleteQuiz id st)
  /\ (getNote id (deleteNote id st) = None
      /\ deleteNote id (deleteNote id st) = deleteNote id st)
  /\ (map_get id (flashcards (deleteFlashcard id st)) = None
      /\ deleteFlashcard id (deleteFlashcard id st) = deleteFlashcard id st).
Proof.
  intros st.
  destruct (deletes_twice now0 ops id) as (Hc & Hs & Hq & Hn & Hf).
  fold st in Hc, Hs, Hq, Hn, Hf.
  repeat split; trivial; apply map_get_delete_same.
Qed.

Lemma map_keys_set_present {V : Type} (k : string) (v : V) (m : JsMap V)
    (existing : V) :
  map_get k m = Some existing -> map_keys (map_set k v m) = map_keys m.
Proof.
  intros H. unfold map_set, map_has. rewrite H. apply map_keys_replace.
Qed.

(** X3.  An update never creates a record, never removes one and never
    moves one: whether it succeeds or rejects, every map of the store has
    the keys it had, in the order it had them. *)
Theorem update_keeps_keys (op : StorageOp) (st : MemStorage) :
  is_update op = true ->
  store_keys (run_op op st) = store_keys st.
Proof.
  destruct op; try discriminate; intros _; simpl;
    unfold updateConversation, updateFlashcardSet, updateFlashcard,
      updateNote, updateVideoGeneration;
    match goal with
    | |- context [map_get ?k ?m] =>
        destruct (map_get k m) as [existing |] eqn:E; simpl; trivial
    end;
    unfold store_keys; simpl;
    now rewrite (map_keys_set_present _ _ _ E).
Qed.

Lemma update_keeps_keys_witness :
  store_keys (run_op (UpdateNote 50 "n1" renaming_payload) sample_store)
  = store_keys sample_store.
Proof.
  apply (update_keeps_keys (UpdateNote 50 "n1" renaming_payload)
           sample_store).
  reflexivity.
Defined.

(** ** The other listings *)

Lemma has_instant_delete_where {A : Type} (key : A -> option Date)
    (doomed : A -> bool) (m : JsMap A) :
  map_ok m = true -> has_instant key m = true ->
  has_instant key (delete_where doomed m) = true.
Proof.
  intros Hok. rewrite (delete_where_filter doomed m Hok).
  rewrite !has_instant_Forall. apply values_filter.
Qed.

Lemma run_op_dated (op : StorageOp) (st : MemStorage) :
  store_ok st = true -> store_dated st = true ->
  store_dated (run_op op st) = true.
Proof.
  intros Hok Hd. store_facts Hok.
  unfold store_dated in *. apply andb_true_iff in Hd. destruct Hd as [Hmd Hqd].
  destruct op; simpl;
    try (unfold updateConversation, updateFlashcardSet, updateFlashcard,
           updateNote, updateVideoGeneration;
         match goal with
         | |- context [map_get ?k ?m] => destruct (map_get k m); simpl
         end);
    apply andb_true_iff; split; trivial;
    first [ now apply has_instant_delete_where
          | eapply has_instant_set; [reflexivity | assumption] ].
Qed.

(** Messages and quiz attempts of a store with a history all have their
    instant. *)
Lemma history_dated (now0 : Date) (ops : list StorageOp) :
  store_dated (run_ops ops (MemStorage_new now0)) = true.
Proof.
  assert (H : forall ops st,
    store_ok st = true -> store_dated st = true ->
    store_dated (run_ops ops st) = true).
  { unfold run_ops. induction ops0 as [| op ops0 IH]; simpl; intros st Ho Hd;
      trivial.
    apply IH; [now apply run_op_ok | now apply run_op_dated]. }
  apply H; reflexivity.
Qed.

Section AscendingSort.
Variable A : Type.
Variable instant : A -> option Date.

Lemma oldest_first_dated (a b : A) ta tb :
  instant a = Some ta -> instant b = Some tb ->
  oldest_first instant a b = Ok (ta - tb).
Proof. unfold oldest_first. intros -> ->. reflexivity. Qed.

Lemma not_newer_trans (a b c : A) :
  not_newer instant a b -> not_newer instant b c -> not_newer instant a c.
Proof.
  intros (ta & tb & Ha & Hb & Hab) (tb' & tc & Hb' & Hc & Hbc).
  exists ta, tc. repeat split; trivial.
  rewrite Hb in Hb'. injection Hb' as <-. lia.
Qed.

Lemma sort_insert_oldest_first (x : A) (sorted : list A) :
  dated instant x -> Forall (dated instant) sorted ->
  StronglySorted (not_newer instant) sorted ->
  exists placed,
    sort_insert (oldest_first instant) x sorted = Ok placed
    /\ Permutation placed (x :: sorted)
    /\ StronglySorted (not_newer instant) placed
    /\ forall t,
         filter (same_instant instant t) placed
         = filter (same_instant instant t) (x :: sorted).
Proof.
  intros [tx Hx]. induction sorted as [| y rest IH]; intros Hd Hs.
  - exists [x]. simpl. repeat split; auto.
    constructor; constructor.
  - inversion Hd as [| ? ? [ty Hy] Hd']; subst.
    inversion Hs as [| ? ? Hs' Hall]; subst.
    simpl. rewrite (oldest_first_dated Hx Hy). simpl.
    destruct (tx - ty >? 0) eqn:Hc.
    + destruct (IH Hd' Hs') as (placed & -> & Hperm & Hsorted & Hstable).
      exists (y :: placed). simpl. split; [reflexivity |].
      split; [| split].
      * rewrite Hperm. apply perm_swap.
      * constructor; trivial.
        apply (Permutation_Forall (Permutation_sym Hperm)).
        constructor; trivial.
        exists ty, tx. repeat split; trivial. lia.
      * intros t. rewrite Hstable. simpl. unfold same_instant.
        rewrite Hx, Hy. simpl.
        destruct (ty =? t) eqn:E1, (tx =? t) eqn:E2; trivial.
        apply Z.eqb_eq in E1, E2. lia.
    + exists (x :: y :: rest). repeat split; trivial.
      constructor; trivial. constructor.
      * exists tx, ty. repeat split; trivial. lia.
      * eapply Forall_impl; [| exact Hall].
        intros z Hz. apply not_newer_trans with y; trivial.
        exists tx, ty. repeat split; trivial. lia.
Qed.

Lemma array_sort_oldest_first (l : list A) :
  Forall (dated instant) l ->
  exists listing,
    array_sort (oldest_first instant) l = Ok listing
    /\ oldest_first_listing instant l listing.
Proof.
  unfold oldest_first_listing.
  induction l as [| x rest IH]; intros Hd.
  - exists []. repeat split; trivial. constructor.
  - inversion Hd as [| ? ? Hx Hd']; subst.
    destruct (IH Hd') as (sorted & Hrun & Hperm & Hsorted & Hstable).
    assert (Hds : Forall (dated instant) sorted)
      by exact (Permutation_Forall (Permutation_sym Hperm) Hd').
    destruct (sort_insert_oldest_first Hx Hds Hsorted)
      as (placed & Hins & Hperm' & Hsorted' & Hstable').
    exists placed. simpl. rewrite Hrun. simpl. rewrite Hins.
    split; [reflexivity |]. split; [| split]; trivial.
    + rewrite Hperm'. now constructor.
    + intros t. rewrite Hstable'. simpl. now rewrite Hstable.
Qed.
End AscendingSort.

Lemma dated_filter {A : Type} (instant : A -> option Date) (f : A -> bool)
    (m : JsMap A) :
  has_instant instant m = true ->
  Forall (dated instant) (filter f (map_values m)).
Proof.
  intros H. apply has_instant_Forall in H. rewrite Forall_forall in *.
  intros x Hx. apply filter_In in Hx. now apply H.
Qed.

(** X4.  In a store with any history, the messages of a conversation are
    returned, not rejected; they are exactly the stored messages whose
    [conversationId] is the given string, the oldest first, and messages
    created in the same millisecond keep the order in which they were
    stored. *)
Theorem conversation_messages_oldest_first
    (now0 : Date) (ops : list StorageOp) (conversationId : string) :
  let st := run_ops ops (MemStorage_new now0) in
  exists listing,
    getConversationMessages conversationId st = Ok listing
    /\ (forall m,
          In m listing <->
          In m (map_values (messages st))
          /\ Message.conversationId m = Some (JStr conversationId))
    /\ oldest_first_listing Message.createdAt
         (filter
            (fun m =>
               strict_equals (Message.conversationId m)
                 (Some (JStr conversationId)))
            (map_values (messages st)))
         listing.
Proof.
  intros st. pose proof (history_dated now0 ops) as Hd. fold st in Hd.
  unfold store_dated in Hd. apply andb_true_iff in Hd. destruct Hd as [Hm _].
  unfold getConversationMessages.
  destruct (array_sort_oldest_first
              (@dated_filter _ Message.createdAt
                 (fun m =>
                    strict_equals (Message.conversationId m)
                      (Some (JStr conversationId))) _ Hm))
    as (listing & Hrun & Hl).
  exists listing. split; [exact Hrun |]. split; [| exact Hl].
  destruct Hl as (Hperm & _ & _). intros m. split.
  - intros Hin. apply (Permutation_in _ Hperm) in Hin.
    apply filter_In in Hin. destruct Hin as [Hin Hc].
    apply strict_equals_string in Hc. tauto.
  - intros [Hin Hc]. apply (Permutation_in _ (Permutation_sym Hperm)).
    apply filter_In. split; trivial. now apply strict_equals_string.
Qed.

(** X5.  In a store with any history, the attempts of a quiz and the
    attempts of a user are returned, not rejected: exactly the stored
    attempts with that [quizId] (that [userId]), the most recently
    completed first, ties in the order they were stored. *)
Theorem quiz_attempts_newest_first
    (now0 : Date) (ops : list StorageOp) (key : string) :
  let st := run_ops ops (MemStorage_new now0) in
  owner_listing QuizAttempt.quizId QuizAttempt.completedAt key
    (map_values (quizAttempts st)) (getQuizAttempts key st)
  /\ owner_listing QuizAttempt.userId QuizAttempt.completedAt key
       (map_values (quizAttempts st)) (getUserQuizAttempts key st).
Proof.
  intros st. pose proof (history_dated now0 ops) as Hd. fold st in Hd.
  unfold store_dated in Hd. apply andb_true_iff in Hd. destruct Hd as [_ Hq].
  split; now apply owner_listing_intro.
Qed.

Section UndatedSort.
Variable A : Type.
Variable instant : A -> option Date.

Lemma sort_insert_length (compareFn : A -> A -> result Z) (x : A)
    (sorted placed : list A) :
  sort_insert compareFn x sorted = Ok placed ->
  List.length placed = S (List.length sorted).
Proof.
  revert placed. induction sorted as [| y rest IH]; simpl; intros placed H.
  - injection H as <-. reflexivity.
  - destruct (compareFn x y) as [c | e]; simpl in H; [| discriminate].
    destruct (c >? 0).
    + destruct (sort_insert compareFn x rest) as [r | e]; simpl in H;
        [| discriminate].
      injection H as <-. simpl. f_equal. now apply IH.
    + injection H as <-. reflexivity.
Qed.

Lemma array_sort_length (compareFn : A -> A -> result Z)
    (l sorted : list A) :
  array_sort compareFn l = Ok sorted -> List.length sorted = List.length l.
Proof.
  revert sorted. induction l as [| x rest IH]; simpl; intros sorted H.
  - injection H as <-. reflexivity.
  - destruct (array_sort compareFn rest) as [s | e]; simpl in H;
      [| discriminate].
    rewrite (sort_insert_length _ _ _ H). f_equal. now apply IH.
Qed.

Lemma oldest_first_undated (a b : A) :
  instant a = None \/ instant b = None ->
  exists e, oldest_first instant a b = Throw e.
Proof.
  unfold oldest_first. intros [H | H].
  - rewrite H. simpl. now eexists.
  - rewrite H. destruct (instant a); simpl; now eexists.
Qed.

(** The comparator reads the instant of both its arguments, and every
    element of an array of two or more reaches it: one record without an
    instant makes the sort throw. *)
Lemma array_sort_undated (l : list A) :
  (2 <= List.length l)%nat ->
  Exists (fun x => instant x = None) l ->
  exists e, array_sort (oldest_first instant) l = Throw e.
Proof.
  induction l as [| x rest IH]; simpl; intros Hlen Hex; [lia |].
  destruct (array_sort (oldest_first instant) rest) as [sorted | e] eqn:Hs;
    simpl; [| now eexists].
  pose proof (array_sort_length _ _ Hs) as Hl.
  destruct sorted as [| y sorted']; simpl in Hl; [lia |].
  inversion Hex as [? ? Hx | ? ? Hrest]; subst.
  - simpl. destruct (@oldest_first_undated x y (or_introl Hx)) as [e ->].
    simpl. now eexists.
  - destruct rest as [| z [| z' rest']]; simpl in Hlen; [lia | |].
    + simpl in Hs. injection Hs as <- <-.
      inversion Hrest as [? ? Hz | ? ? Hnil]; subst; [| inversion Hnil].
      simpl. destruct (@oldest_first_undated x z (or_intror Hz)) as [e ->].
      simpl. now eexists.
    + assert (H2 : (2 <= List.length (z :: z' :: rest'))%nat)
        by (simpl; lia).
      destruct (IH H2 Hrest) as [e He]. congruence.
Qed.
End UndatedSort.

(** Flashcards are created with an instant, and only [updateFlashcard]
    can take it away. *)
Lemma run_op_cards_dated (op : StorageOp) (st : MemStorage) :
  updates_flashcard op = false ->
  store_ok st = true ->
  has_instant Flashcard.createdAt (flashcards st) = true ->
  has_instant Flashcard.createdAt (flashcards (run_op op st)) = true.
Proof.
  intros Hop Hok Hd. store_facts Hok.
  destruct op; try discriminate Hop; simpl;
    try (unfold updateConversation, updateFlashcardSet, updateNote,
           updateVideoGeneration;
         match goal with
         | |- context [map_get ?k ?m] => destruct (map_get k m); simpl
         end);
    trivial;
    first [ now apply has_instant_delete_where
          | now apply has_instant_delete
          | eapply has_instant_set; [reflexivity | assumption] ].
Qed.

Lemma history_cards_dated (now0 : Date) (ops : list StorageOp) :
  forallb (fun op => negb (updates_flashcard op)) ops = true ->
  has_instant Flashcard.createdAt
    (flashcards (run_ops ops (MemStorage_new now0))) = true.
Proof.
  assert (H : forall ops st,
    forallb (fun op => negb (updates_flashcard op)) ops = true ->
    store_ok st = true ->
    has_instant Flashcard.createdAt (flashcards st) = true ->
    has_instant Flashcard.createdAt (flashcards (run_ops ops st)) = true).
  { unfold run_ops. induction ops0 as [| op ops0 IH]; simpl;
      intros st Hops Ho Hd; trivial.
    apply andb_true_iff in Hops as [Hop Hops].
    apply negb_true_iff in Hop.
    apply IH; [exact Hops | now apply run_op_ok
              | now apply run_op_cards_dated]. }
  intros Hops. apply H; [exact Hops | reflexivity | reflexivity].
Qed.

(** X6.  On a store reached by storage calls none of which updates a
    flashcard, the route that lists the flashcards of a set answers 200
    with exactly the cards of the set, the oldest first, cards created in
    the same millisecond in the order they were stored, and leaves the
    world as it was.  On any store, when the set holds two or more cards
    and one of them has a null [createdAt], which an update can write, the
    sort throws and the route answers 500, again without changing
    anything. *)
Theorem set_flashcards_listing
    (now0 : Date) (ops : list StorageOp) (setId : string)
    (uuids dates : nat) (calls : list ProviderCall) (frames : list Frame)
    (logged pending : list string) :
  (forallb (fun op => negb (updates_flashcard op)) ops = true ->
   let st := run_ops ops (MemStorage_new now0) in
   let w := mkWorld st uuids dates calls frames logged pending in
   exists listing,
     get_set_flashcards setId w = (Ok (json_of listing), w)
     /\ oldest_first_listing Flashcard.createdAt
          (filter (fun card => String.eqb (Flashcard.setId card) setId)
             (map_values (flashcards st)))
          listing)
  /\ (forall w : World,
        let cards :=
          filter (fun card => String.eqb (Flashcard.setId card) setId)
            (map_values (flashcards (storage w))) in
        (2 <= List.length cards)%nat ->
        Exists (fun card => Flashcard.createdAt card = None) cards ->
        get_set_flashcards setId w
        = (Ok (message_of 500 "Failed to fetch flashcards"), w)).
Proof.
  split.
  - intros Hops st w.
    pose proof (history_cards_dated now0 ops Hops) as Hd. fold st in Hd.
    unfold get_set_flashcards, try_catch, bind, querying, ret,
      getSetFlashcards.
    cbn [storage w].
    pose proof
      (@dated_filter _ Flashcard.createdAt
         (fun card => String.eqb (Flashcard.setId card) setId) _ Hd) as Hc.
    destruct (array_sort_oldest_first Hc) as (listing & Hrun & Hl).
    exists listing. now rewrite Hrun.
  - intros w cards Hlen Hex.
    unfold get_set_flashcards, try_catch, bind, querying, ret,
      getSetFlashcards.
    fold cards.
    destruct (@array_sort_undated _ Flashcard.createdAt cards Hlen Hex)
      as [e He].
    now rewrite He.
Qed.

(** Two cards created one after the other are listed in that order; once
    an update has written a null [createdAt] on the first, the listing
    fails. *)
Lemma set_flashcards_listing_witness :
  let ops :=
    [CreateFlashcard "f1" 21 (Flashcard.mkInsert "s1" "front" "back" None);
     CreateFlashcard "f2" 22
       (Flashcard.mkInsert "s1" "front" "back" (Some 2))] in
  let w := mkWorld (run_ops ops (MemStorage_new 0)) 0 0 [] [] [] [] in
  (exists listing,
     get_set_flashcards "s1" w = (Ok (json_of listing), w)
     /\ List.map Flashcard.id listing = ["f1"; "f2"])
  /\ get_set_flashcards "s1" (empty_world undated_cards_store)
     = (Ok (message_of 500 "Failed to fetch flashcards"),
        empty_world undated_cards_store).
Proof.
  intros ops w. split.
  - destruct (proj1 (set_flashcards_listing 0 ops "s1" 0 0 [] [] [] [])
                eq_refl)
      as (listing & Hrun & _).
    exists listing. split; [exact Hrun |].
    vm_compute in Hrun. now injection Hrun as <-.
  - apply (proj2 (set_flashcards_listing 0 [] "s1" 0 0 [] [] [] [])
             (empty_world undated_cards_store)).
    + vm_compute. lia.
    + apply Exists_cons_hd. reflexivity.
Defined.

(* ================================================================= *)
(** * Further properties of the routes *)

(** ** The CRUD routes *)

(** X7.  The life of a note through its routes.  A valid POST answers 200
    with a note stored under a freshly drawn identifier; GET of that
    identifier answers 200 with the same note; PUT answers 200 with the
    merged note, which the next GET returns, still under the identifier of
    the URL even when the payload carries another [id]; DELETE answers
    200; and GET then answers 404. *)
Theorem note_routes_round_trip
    (P : Platform) (w : World) (data : Note.insert) (updates : Note.partial) :
  exists note w1,
    post_notes P (Ok data) w = (Ok (json_of note), w1)
    /\ Note.id note = randomUUID P (uuids_drawn w)
    /\ Note.title note = Note.i_title data
    /\ Note.content note = Note.i_content data
    /\ get_note (Note.id note) w1 = (Ok (json_of note), w1)
    /\ exists updated w2,
         put_note P (Note.id note) updates w1 = (Ok (json_of updated), w2)
         /\ Note.title updated
            = spread (Note.i_title data) (Note.p_title updates)
         /\ Note.content updated
            = spread (Note.i_content data) (Note.p_content updates)
         /\ get_note (Note.id note) w2 = (Ok (json_of updated), w2)
         /\ exists w3,
              delete_note (Note.id note) w2
              = (Ok (message_of 200 "Note deleted"), w3)
              /\ get_note (Note.id note) w3
                 = (Ok (message_of 404 "Note not found"), w3).
Proof.
  do 2 eexists. split; [reflexivity |]. simpl.
  do 3 (split; [reflexivity |]).
  set (id := randomUUID P (uuids_drawn w)).
  split.
  { unfold get_note, try_catch, bind, reading, ret, getNote. simpl.
    now rewrite map_get_set_same. }
  unfold put_note, try_catch, bind, updating_at, updateNote, ret. simpl.
  rewrite map_get_set_same. simpl.
  do 2 eexists. split; [reflexivity |]. simpl.
  do 2 (split; [reflexivity |]).
  split.
  { unfold get_note, try_catch, bind, reading, ret, getNote. simpl.
    now rewrite map_get_set_same. }
  eexists. split; [reflexivity |].
  unfold get_note, try_catch, bind, reading, ret, getNote. simpl.
  now rewrite map_get_delete_same.
Qed.

(** X8.  A PUT for an identifier under which nothing is stored answers 400
    with the route's static message, the same answer as for bad input, and
    changes nothing: no record is created and no instant is taken. *)
Theorem put_unknown_answers_400 (P : Platform) (w : World) (id : string) :
  (getNote id (storage w) = None ->
   forall updates,
     put_note P id updates w
     = (Ok (message_of 400 "Failed to update note"), w))
  /\ (map_get id (flashcards (storage w)) = None ->
      forall updates,
        put_flashcard id updates w
        = (Ok (message_of 400 "Failed to update flashcard"), w)).
Proof.
  split; intros H updates.
  - unfold put_note, try_catch, bind, updating_at, updateNote.
    unfold getNote in H. now rewrite H.
  - unfold put_flashcard, try_catch, bind, updating, updateFlashcard.
    now rewrite H.
Qed.

Lemma put_unknown_answers_400_witness :
  put_note sample_platform "nowhere" renaming_payload
    (empty_world sample_store)
  = (Ok (message_of 400 "Failed to update note"), empty_world sample_store).
Proof.
  apply (proj1 (put_unknown_answers_400 sample_platform
                  (empty_world sample_store) "nowhere")).
  reflexivity.
Defined.

(** X9.  Each DELETE route answers 200 whether or not the identifier is in
    use, and on a store with any history a repeated DELETE answers 200
    again and leaves the world exactly as the first left it. *)
Theorem delete_routes_idempotent
    (now0 : Date) (ops : list StorageOp) (id : string)
    (uuids dates : nat) (calls : list ProviderCall) (frames : list Frame)
    (logged pending : list string) :
  let w :=
    mkWorld (run_ops ops (MemStorage_new now0)) uuids dates calls frames
      logged pending in
  (exists w1,
     delete_conversation id w = (Ok (message_of 200 "Conversation deleted"), w1)
     /\ delete_conversation id w1
        = (Ok (message_of 200 "Conversation deleted"), w1))
  /\ (exists w1,
        delete_flashcard_set id w
        = (Ok (message_of 200 "Flashcard set deleted"), w1)
        /\ delete_flashcard_set id w1
           = (Ok (message_of 200 "Flashcard set deleted"), w1))
  /\ (exists w1,
        delete_flashcard id w = (Ok (message_of 200 "Flashcard deleted"), w1)
        /\ delete_flashcard id w1
           = (Ok (message_of 200 "Flashcard deleted"), w1))
  /\ (exists w1,
        delete_note id w = (Ok (message_of 200 "Note deleted"), w1)
        /\ delete_note id w1 = (Ok (message_of 200 "Note deleted"), w1)).
Proof.
  intros w.
  destruct (deletes_twice now0 ops id) as (Hc & Hs & _ & Hn & Hf).
  unfold delete_conversation, delete_flashcard_set, delete_flashcard,
    delete_note, try_catch, bind, deleting, ret, set_storage.
  repeat split; eexists; (split; [reflexivity |]); simpl;
    now rewrite ?Hc, ?Hs, ?Hn, ?Hf.
Qed.

(** X10.  On a store with any history the list routes of the demo user
    never answer 500: each answers 200 with exactly that user's records,
    the newest first, ties in insertion order, and leaves the world as it
    was. *)
Theorem list_routes_answer_200
    (now0 : Date) (ops : list StorageOp)
    (uuids dates : nat) (calls : list ProviderCall) (frames : list Frame)
    (logged pending : list string) :
  let st := run_ops ops (MemStorage_new now0) in
  let w := mkWorld st uuids dates calls frames logged pending in
  (exists listing,
     get_conversations w = (Ok (json_of listing), w)
     /\ owner_listing Conversation.userId conversation_instant
          DEFAULT_USER_ID (map_values (conversations st)) (Ok listing))
  /\ (exists listing,
        get_flashcard_sets w = (Ok (json_of listing), w)
        /\ owner_listing FlashcardSet.userId flashcardSet_instant
             DEFAULT_USER_ID (map_values (flashcardSets st)) (Ok listing))
  /\ (exists listing,
        get_notes w = (Ok (json_of listing), w)
        /\ owner_listing Note.userId note_instant
             DEFAULT_USER_ID (map_values (notes st)) (Ok listing))
  /\ (exists listing,
        get_quizzes w = (Ok (json_of listing), w)
        /\ owner_listing Quiz.userId Quiz.createdAt
             DEFAULT_USER_ID (map_values (quizzes st)) (Ok listing))
  /\ (exists listing,
        get_quiz_attempts w = (Ok (json_of listing), w)
        /\ owner_listing QuizAttempt.userId QuizAttempt.completedAt
             DEFAULT_USER_ID (map_values (quizAttempts st)) (Ok listing)).
Proof.
  intros st w.
  pose proof (history_ok now0 ops) as H. fold st in H. store_facts H.
  pose proof (history_dated now0 ops) as Hd. fold st in Hd.
  unfold store_dated in Hd. apply andb_true_iff in Hd. destruct Hd as [_ Hqa'].
  unfold get_conversations, get_flashcard_sets, get_notes, get_quizzes,
    get_quiz_attempts, try_catch, bind, querying, ret.
  unfold getUserConversations, getUserFlashcardSets, getUserNotes,
    getUserQuizzes, getUserQuizAttempts.
  cbn [storage w].
  pose proof (@owner_listing_intro _ conversation_instant Conversation.userId
                DEFAULT_USER_ID _ Hci)
    as L1.
  pose proof (@owner_listing_intro _ flashcardSet_instant FlashcardSet.userId
                DEFAULT_USER_ID _ Hfsi)
    as L2.
  pose proof (@owner_listing_intro _ note_instant Note.userId
                DEFAULT_USER_ID _ Hni) as L3.
  pose proof (@owner_listing_intro _ Quiz.createdAt Quiz.userId
                DEFAULT_USER_ID _ Hqi) as L4.
  pose proof (@owner_listing_intro _ QuizAttempt.completedAt QuizAttempt.userId
                DEFAULT_USER_ID _ Hqa')
    as L5.
  repeat split;
    [ destruct L1 as (l & Hl & Hrest) | destruct L2 as (l & Hl & Hrest)
    | destruct L3 as (l & Hl & Hrest) | destruct L4 as (l & Hl & Hrest)
    | destruct L5 as (l & Hl & Hrest) ];
    exists l; rewrite Hl; (split; [reflexivity |]);
    exists l; split; trivial.
Qed.

(** ** Quiz attempts *)

Lemma grade_answer_step (questions : any) (answer : json) (index : nat)
    (score score' : Z) :
  grade_answer questions answer index score = Ok score' ->
  score' = score \/ score' = score + 1.
Proof.
  unfold grade_answer.
  destruct (get_index questions index) as [question | e]; cbn [bindR];
    [| discriminate].
  destruct (truthy question); [| intros H; injection H as <-; now left].
  destruct (get_prop question "correctAnswer") as [c | e]; cbn [bindR];
    [| discriminate].
  destruct (strict_equals (Some answer) c); intros H; injection H as <-;
    auto.
Qed.

Lemma grade_answer_beyond (questions : list json) (answer : json)
    (index : nat) (score score' : Z) :
  (List.length questions <= index)%nat ->
  grade_answer (Some (JArr questions)) answer index score = Ok score' ->
  score' = score.
Proof.
  intros Hlen. unfold grade_answer, get_index.
  apply nth_error_None in Hlen. rewrite Hlen. cbn [bindR truthy].
  intros H. now injection H as <-.
Qed.

Lemma grade_from_bounds (questions : any) (answers : list json) :
  forall (index : nat) (score score' : Z),
    grade_from questions answers index score = Ok score' ->
    score <= score' <= score + Z.of_nat (List.length answers).
Proof.
  induction answers as [| answer answers IH]; intros index score score' H.
  - simpl in H. injection H as <-. simpl. lia.
  - cbn [grade_from] in H.
    destruct (grade_answer questions answer index score) as [s1 | e] eqn:E;
      cbn [bindR] in H; [| discriminate].
    apply grade_answer_step in E. apply IH in H.
    cbn [List.length]. lia.
Qed.

Lemma grade_from_array_bound (questions answers : list json) :
  forall (index : nat) (score score' : Z),
    grade_from (Some (JArr questions)) answers index score = Ok score' ->
    score' <= score + Z.of_nat (List.length questions - index).
Proof.
  induction answers as [| answer answers IH]; intros index score score' H.
  - simpl in H. injection H as <-. lia.
  - cbn [grade_from] in H.
    destruct (grade_answer (Some (JArr questions)) answer index score)
      as [s1 | e] eqn:E; cbn [bindR] in H; [| discriminate].
    apply IH in H.
    destruct (Nat.le_gt_cases (List.length questions) index) as [Hle | Hgt].
    + apply grade_answer_beyond in E; [| exact Hle]. subst. lia.
    + apply grade_answer_step in E. lia.
Qed.

(** What a 200 from the attempts route tells about the request. *)
Lemma post_quiz_attempts_200 (P : Platform) (w w' : World) (id : string)
    (body : any) (attempt : QuizAttempt.t) :
  post_quiz_attempts P id body w
  = (Ok (mkResponse 200 (AttemptBody attempt)), w') ->
  exists quiz answers total,
    getQuiz id (storage w) = Some quiz
    /\ QuizAttempt.answers attempt = Some (JArr answers)
    /\ grade_from (Quiz.questions quiz) answers 0 0
       = Ok (QuizAttempt.score attempt)
    /\ get_length (Quiz.questions quiz) = Ok total
    /\ QuizAttempt.totalQuestions attempt = total.
Proof.
  unfold post_quiz_attempts, try_catch, bind at 1, liftR at 1.
  destruct (get_prop body "answers") as [answers | e]; [| discriminate].
  unfold bind at 1, reading at 1.
  destruct (getQuiz id (storage w)) as [quiz |]; [| discriminate].
  unfold bind at 1, liftR at 1.
  destruct (call_forEach answers) as [items | e] eqn:Hitems;
    [| discriminate].
  unfold bind at 1, liftR at 1.
  destruct (grade_from (Quiz.questions quiz) items 0 0) as [score | e]
    eqn:Hgrade; [| discriminate].
  unfold bind at 1, liftR at 1.
  destruct (get_length (Quiz.questions quiz)) as [total | e] eqn:Hlen;
    [| discriminate].
  cbv beta iota zeta delta
    [bind creating new_uuid new_Date ret createQuizAttempt set_storage
     storage uuids_drawn dates_taken provider_calls sent console timers
     QuizAttempt.i_quizId QuizAttempt.i_userId QuizAttempt.i_answers
     QuizAttempt.i_score QuizAttempt.i_totalQuestions].
  intros H. injection H as <- _.
  exists quiz, items, total. cbn.
  split; [reflexivity |]. split; [| repeat split; trivial].
  destruct answers as [[| | | | l |] |]; try discriminate.
  now injection Hitems as <-.
Qed.

(** X11.  Whenever the attempts route answers 200, the score of the
    attempt is at least 0 and at most the number of submitted answers;
    when the stored questions are a list it is also at most the number of
    questions, which is the attempt's [totalQuestions]: answers beyond the
    last question never score. *)
Theorem quiz_score_within_bounds
    (P : Platform) (w w' : World) (id : string) (body : any)
    (attempt : QuizAttempt.t) :
  post_quiz_attempts P id body w
  = (Ok (mkResponse 200 (AttemptBody attempt)), w') ->
  exists answers,
    QuizAttempt.answers attempt = Some (JArr answers)
    /\ 0 <= QuizAttempt.score attempt <= Z.of_nat (List.length answers)
    /\ forall quiz questions,
         getQuiz id (storage w) = Some quiz ->
         Quiz.questions quiz = Some (JArr questions) ->
         QuizAttempt.score attempt <= Z.of_nat (List.length questions)
         /\ QuizAttempt.totalQuestions attempt
            = Some (JNum (Z.of_nat (List.length questions))).
Proof.
  intros H.
  destruct (post_quiz_attempts_200 _ _ _ _ H)
    as (quiz & answers & total & Hquiz & Hanswers & Hgrade & Hlen & Htotal).
  exists answers. split; [exact Hanswers |]. split.
  - apply grade_from_bounds in Hgrade. lia.
  - intros quiz' questions Hquiz' Hq. rewrite Hquiz in Hquiz'.
    injection Hquiz' as <-. rewrite Hq in Hgrade, Hlen. split.
    + apply grade_from_array_bound in Hgrade. lia.
    + simpl in Hlen. injection Hlen as <-. exact Htotal.
Qed.

Lemma quiz_score_within_bounds_witness :
  exists attempt answers,
    fst (post_quiz_attempts sample_platform "q1"
           (answers_body [JNum 0; JNum 1; JNum 2; JNum 0; JNum 0])
           (empty_world sample_store))
    = Ok (mkResponse 200 (AttemptBody attempt))
    /\ QuizAttempt.answers attempt = Some (JArr answers)
    /\ 0 <= QuizAttempt.score attempt <= Z.of_nat (List.length answers)
    /\ QuizAttempt.score attempt <= 3.
Proof.
  destruct
    (quiz_score_within_bounds sample_platform (empty_world sample_store)
       "q1" (answers_body [JNum 0; JNum 1; JNum 2; JNum 0; JNum 0])
       eq_refl)
    as (answers & Hanswers & Hbounds & Hquestions).
  do 2 eexists. split; [reflexivity |]. split; [exact Hanswers |].
  split; [exact Hbounds |].
  exact (proj1 (Hquestions _ _ eq_refl eq_refl)).
Defined.

(** X12.  The attempts route always answers, with 200, 404 or 400.  It
    answers 404 exactly when the request has a body and no quiz is stored
    under the identifier, and unless it answers 200 it leaves the world as
    it was: a failed submission stores nothing. *)
Theorem quiz_attempt_failures_store_nothing
    (P : Platform) (w : World) (id : string) (body : any) :
  exists response w',
    post_quiz_attempts P id body w = (Ok response, w')
    /\ (status response = 200 \/ status response = 404
        \/ status response = 400)
    /\ (status response <> 200 -> w' = w)
    /\ (status response = 404 <->
        getQuiz id (storage w) = None
        /\ exists answers, get_prop body "answers" = Ok answers).
Proof.
  unfold post_quiz_attempts, try_catch, bind at 1, liftR at 1.
  destruct (get_prop body "answers") as [answers | e];
    [| do 2 eexists; split; [reflexivity |]; simpl;
       repeat split; auto; try discriminate;
       intros [_ [a Ha]]; discriminate ].
  unfold bind at 1, reading at 1.
  destruct (getQuiz id (storage w)) as [quiz |];
    [| do 2 eexists; split; [reflexivity |]; simpl;
       repeat split; auto; now eexists ].
  unfold bind at 1, liftR at 1.
  destruct (call_forEach answers) as [items | e];
    [| do 2 eexists; split; [reflexivity |]; simpl;
       repeat split; auto; try discriminate; intros [Hq _]; discriminate ].
  unfold bind at 1, liftR at 1.
  destruct (grade_from (Quiz.questions quiz) items 0 0) as [score | e];
    [| do 2 eexists; split; [reflexivity |]; simpl;
       repeat split; auto; try discriminate; intros [Hq _]; discriminate ].
  unfold bind at 1, liftR at 1.
  destruct (get_length (Quiz.questions quiz)) as [total | e];
    [| do 2 eexists; split; [reflexivity |]; simpl;
       repeat split; auto; try discriminate; intros [Hq _]; discriminate ].
  do 2 eexists. split; [reflexivity |]. simpl.
  repeat split; auto; try discriminate; try (intros Hs; now destruct Hs).
Qed.

(** ** Generation routes *)

Ltac split_cases :=
  repeat first
    [ progress cbv beta iota
    | match goal with
      | |- context [match ?x with _ => _ end] =>
          lazymatch x with
          | context [match _ with _ => _ end] => fail
          | _ => destruct x eqn:?
          end
      end ].

(** X13.  The guards of the two generation routes, for every request.
    When the body is a JSON value other than [null]: without a truthy
    [content], flashcard generation answers 400 with [Content is
    required]; without a truthy [subject], quiz generation answers 400
    with [Subject is required].  When the request has no body, or the
    body is [null], reading the fields throws and both routes answer 500
    with their failure message.  In each of these cases the world is left
    as it was: the provider is not called and nothing is stored. *)
Theorem generation_requires_input (P : Platform) (w : World) (body : any) :
  match body with
  | None | Some JNull =>
      post_flashcards_generate P body w
      = (Ok (mkResponse 500 (MessageBody "Failed to generate flashcards")),
         w)
      /\ post_quizzes_generate P body w
         = (Ok (mkResponse 500 (MessageBody "Failed to generate quiz")), w)
  | Some value =>
      (truthy (field_of value "content") = false ->
       post_flashcards_generate P body w
       = (Ok (mkResponse 400 (MessageBody "Content is required")), w))
      /\ (truthy (field_of value "subject") = false ->
          post_quizzes_generate P body w
          = (Ok (mkResponse 400 (MessageBody "Subject is required")), w))
  end.
Proof.
  unfold post_flashcards_generate, post_quizzes_generate, try_catch, bind,
    liftR, ret.
  destruct body as [[| b | n | s | items | fields] |]; simpl;
    split; try reflexivity; intros H; try reflexivity; now rewrite H.
Qed.

(** An empty [content] beside other fields, and a request without a
    body. *)
Lemma generation_requires_input_witness :
  post_flashcards_generate sample_platform
    (Some (JObj [("content", JStr EmptyString); ("count", JNum 3)]))
    (empty_world sample_store)
  = (Ok (mkResponse 400 (MessageBody "Content is required")),
     empty_world sample_store)
  /\ post_quizzes_generate sample_platform None (empty_world sample_store)
     = (Ok (mkResponse 500 (MessageBody "Failed to generate quiz")),
        empty_world sample_store).
Proof.
  split.
  - apply (proj1 (generation_requires_input sample_platform
                    (empty_world sample_store)
                    (Some (JObj [("content", JStr EmptyString);
                                 ("count", JNum 3)])))).
    reflexivity.
  - exact (proj2 (generation_requires_input sample_platform
                    (empty_world sample_store) None)).
Defined.

(** X14.  Whatever the request and whatever the provider does, flashcard
    generation answers (it never lets an exception escape), makes at most
    one provider request, and never changes the store; quiz generation
    answers, makes at most one provider request, and changes the store
    only when it answers 200. *)
Theorem generation_routes_frame (P : Platform) (w : World) (body : any) :
  (exists response w',
     post_flashcards_generate P body w = (Ok response, w')
     /\ storage w' = storage w
     /\ (provider_calls w' = provider_calls w
         \/ exists call,
              provider_calls w' = (provider_calls w ++ [call])%list))
  /\ (exists response w',
        post_quizzes_generate P body w = (Ok response, w')
        /\ (status response <> 200 -> storage w' = storage w)
        /\ (provider_calls w' = provider_calls w
            \/ exists call,
                 provider_calls w' = (provider_calls w ++ [call])%list)).
Proof.
  split.
  - unfold post_flashcards_generate, try_catch, bind, liftR, provider_request,
      ret.
    split_cases; do 2 eexists; (split; [reflexivity |]); simpl;
      (split; [reflexivity |]); first [now left | right; now eexists].
  - unfold post_quizzes_generate, try_catch, bind, liftR, provider_request,
      creating, new_uuid, new_Date, ret.
    split_cases; do 2 eexists; (split; [reflexivity |]); simpl;
      (split; [first [reflexivity | intros Hs; now destruct Hs] |]);
      first [now left | right; now eexists].
Qed.

(** X15.  Note enhancement.  For an identifier under which no note is
    stored the route answers 404 and leaves the world as it was, without
    calling the provider.  For a stored note it makes one provider
    request: if that fails the route answers 500 and the store is
    unchanged; if it replies, the route answers 200 with the note stored
    with the reply's text as content (the original content when the reply
    has no text), the instant of the update as [updatedAt], and every
    other field as before. *)
Theorem enhance_note_outcomes (P : Platform) (w : World) (id : string) :
  (getNote id (storage w) = None ->
   post_notes_enhance P id w
   = (Ok (mkResponse 404 (MessageBody "Note not found")), w))
  /\ (forall note,
        getNote id (storage w) = Some note ->
        let call := mkCall OpenAI (Some (JStr (enhance_prompt note))) in
        match provider_reply P (List.length (provider_calls w)) call with
        | Failed _ =>
            post_notes_enhance P id w
            = (Ok (mkResponse 500 (MessageBody "Failed to enhance note")),
               with_call call w)
        | Replied text =>
            exists updated w',
              post_notes_enhance P id w
              = (Ok (mkResponse 200 (NoteBody updated)), w')
              /\ provider_calls w' = (provider_calls w ++ [call])%list
              /\ getNote id (storage w') = Some updated
              /\ Note.content updated = text_or text (Note.content note)
              /\ Note.updatedAt updated = Some (clock P (dates_taken w))
              /\ Note.id updated = Note.id note
              /\ Note.userId updated = Note.userId note
              /\ Note.title updated = Note.title note
              /\ Note.subject updated = Note.subject note
              /\ Note.tags updated = Note.tags note
              /\ Note.createdAt updated = Note.createdAt note
        end).
Proof.
  unfold post_notes_enhance, try_catch, bind, reading, provider_request,
    updating_at, updateNote, ret, with_call.
  split.
  - intros H. now rewrite H.
  - intros note H. cbv zeta. rewrite H.
    destruct (provider_reply P _ _) as [text | e]; [| reflexivity].
    simpl. unfold getNote in H. rewrite H.
    do 2 eexists. split; [reflexivity |]. simpl.
    split; [reflexivity |]. split; [| repeat split].
    unfold getNote. simpl. apply map_get_set_same.
Qed.

Lemma enhance_note_outcomes_witness :
  post_notes_enhance sample_platform "nowhere" (empty_world sample_store)
  = (Ok (mkResponse 404 (MessageBody "Note not found")),
     empty_world sample_store)
  /\ exists w',
       post_notes_enhance sample_platform "n1" (later_world sample_store)
       = (Ok (mkResponse 500 (MessageBody "Failed to enhance note")), w')
       /\ storage w' = sample_store.
Proof.
  destruct (enhance_note_outcomes sample_platform (empty_world sample_store)
              "nowhere") as [Hmissing _].
  destruct (enhance_note_outcomes sample_platform (later_world sample_store)
              "n1") as [_ Hfound].
  split; [exact (Hmissing eq_refl) |].
  specialize (Hfound _ eq_refl). cbv zeta in Hfound. simpl in Hfound.
  eexists. split; [exact Hfound | reflexivity].
Defined.

(** ** The relay *)

Lemma map_keys_set_absent {V : Type} (k : string) (v : V) (m : JsMap V) :
  map_get k m = None -> map_keys (map_set k v m) = (map_keys m ++ [k])%list.
Proof.
  intros H. unfold map_set, map_has. rewrite H.
  unfold map_keys. now rewrite map_app.
Qed.

(** X16.  A chat frame whose model selects a provider that replies: the
    relay sends the typing indicator, its withdrawal, and then a
    [message] frame carrying the persisted assistant message, whose
    content is the reply's text, or the apology when the reply has none.
    When the two identifiers drawn are new and distinct, the store gains
    exactly two messages, the user's and then the assistant's, both for
    the frame's conversation. *)
Theorem relay_success_path
    (P : Platform) (w : World) (data : string) (message : json)
    (model : string) (p : Provider) (text : option string) :
  JSON_parse P data = Ok message ->
  field_of message "type" = Some (JStr "chat_message") ->
  field_of message "model" = Some (JStr model) ->
  provider_for model = Some p ->
  provider_reply P (List.length (provider_calls w))
    (mkCall p (field_of message "content")) = Replied text ->
  let id1 := randomUUID P (uuids_drawn w) in
  let id2 := randomUUID P (S (uuids_drawn w)) in
  let conversationId := field_of message "conversationId" in
  let inbound :=
    inbound_message id1 (clock P (dates_taken w)) conversationId
      (field_of message "content") in
  let saved :=
    Message.mk id2 conversationId "assistant"
      (Some (JStr (text_or text "Sorry, I couldn't generate a response.")))
      (Some JNull) (Some (clock P (S (dates_taken w)))) in
  exists w',
    on_message P data w = (Ok tt, w')
    /\ sent w'
       = (sent w ++ [Typing true; Typing false; ChatMessage saved])%list
    /\ map_get id2 (messages (storage w')) = Some saved
    /\ (id1 <> id2 ->
        map_get id1 (messages (storage w)) = None ->
        map_get id2 (messages (storage w)) = None ->
        map_get id1 (messages (storage w')) = Some inbound
        /\ map_keys (messages (storage w'))
           = (map_keys (messages (storage w)) ++ [id1; id2])%list).
Proof.
  intros Hparse Htype Hmodel Hprov Hreply id1 id2 conversationId inbound
    saved.
  destruct (field_of_object _ _ Htype) as [fields ->]. simpl in *.
  rewrite (on_message_chat_frame P w data Hparse Htype).
  rewrite Hmodel, ai_response_by_prefix, Hprov. simpl.
  rewrite Hreply. simpl.
  eexists. split; [reflexivity |]. simpl.
  split; [now rewrite <- !app_assoc |].
  split; [apply map_get_set_same |].
  intros Hne H1 H2. split.
  - rewrite map_get_set_other by exact Hne. apply map_get_set_same.
  - rewrite map_keys_set_absent.
    + rewrite map_keys_set_absent by exact H1. now rewrite <- app_assoc.
    + rewrite map_get_set_other by (intros E; now apply Hne). exact H2.
Qed.

Lemma relay_success_path_witness :
  exists w',
    on_message sample_platform "chat-gpt" (empty_world sample_store)
    = (Ok tt, w')
    /\ map_keys (messages (storage w')) = ["id-0"; "id-1"]
    /\ List.map (fun m => Message.role m) (map_values (messages (storage w')))
       = ["user"; "assistant"].
Proof.
  destruct
    (relay_success_path sample_platform (empty_world sample_store)
       "chat-gpt" (model := "gpt-5") (p := OpenAI)
       (text := Some "not json")
       eq_refl eq_refl eq_refl eq_refl eq_refl)
    as (w' & Hrun & _ & _ & Hnew).
  exists w'. split; [exact Hrun |].
  destruct (Hnew ltac:(vm_compute; discriminate) eq_refl eq_refl)
    as [_ Hkeys].
  split; [exact Hkeys |].
  vm_compute in Hrun. injection Hrun as <-. reflexivity.
Defined.

Lemma ai_response_calls (P : Platform) (model content : any) (w : World) :
  let w' := snd (ai_response P model content w) in
  provider_calls w' = provider_calls w
  \/ exists call, provider_calls w' = (provider_calls w ++ [call])%list.
Proof.
  unfold ai_response, bind, liftR, provider_request, ret.
  split_cases; simpl; first [now left | right; now eexists].
Qed.

(** X17.  Whatever the frame, the handler of the relay returns normally
    and changes nothing in the store but the messages: users,
    conversations (so no conversation's [updatedAt] moves when a message
    arrives), flashcard sets, flashcards, notes, quizzes, attempts and
    video generations are the maps they were.  It draws at most two
    identifiers, calls a provider at most once, arms no timer, and only
    appends to the frames already sent. *)
Theorem relay_touches_only_messages
    (P : Platform) (w : World) (data : string) :
  exists w',
    on_message P data w = (Ok tt, w')
    /\ users (storage w') = users (storage w)
    /\ conversations (storage w') = conversations (storage w)
    /\ flashcardSets (storage w') = flashcardSets (storage w)
    /\ flashcards (storage w') = flashcards (storage w)
    /\ notes (storage w') = notes (storage w)
    /\ quizzes (storage w') = quizzes (storage w)
    /\ quizAttempts (storage w') = quizAttempts (storage w)
    /\ videoGenerations (storage w') = videoGenerations (storage w)
    /\ timers w' = timers w
    /\ (uuids_drawn w' <= uuids_drawn w + 2)%nat
    /\ (provider_calls w' = provider_calls w
        \/ exists call,
             provider_calls w' = (provider_calls w ++ [call])%list)
    /\ exists frames, sent w' = (sent w ++ frames)%list.
Proof.
  destruct (JSON_parse P data) as [message | e] eqn:Hparse.
  - destruct message as [| b | n | s | items | fields];
      try (unfold on_message, try_catch, bind, liftR, console_error, ret;
           rewrite Hparse; simpl; eexists; split; [reflexivity |]; simpl;
           repeat split; auto; first [lia | now left | exists []; now rewrite app_nil_r]).
    destruct (strict_equals (assoc "type" fields)
                (Some (JStr "chat_message"))) eqn:Htype.
    + apply strict_equals_string in Htype.
      rewrite (on_message_chat_frame P w data Hparse Htype).
      match goal with
      | |- context [ai_response P ?m ?c ?w1] =>
          pose proof (ai_response_frame P m c w1) as Hframe;
          pose proof (ai_response_calls P m c w1) as Hcalls;
          destruct (ai_response P m c w1) as [[aiResponse | e] w2]
      end;
        simpl in Hframe, Hcalls;
        destruct Hframe as (Hst & Hsent & Hu & _ & _ & Ht);
        eexists; (split; [reflexivity |]); simpl;
        rewrite ?Hst, ?Hsent, ?Hu, ?Ht; simpl;
        repeat split; auto; try lia; try exact Hcalls.
      * eexists. now rewrite <- !app_assoc.
      * eexists. now rewrite <- !app_assoc.
    + unfold on_message, try_catch, bind, liftR, ret.
      rewrite Hparse. simpl. rewrite Htype.
      eexists. split; [reflexivity |].
      repeat split; auto; first [lia | now left | exists []; now rewrite app_nil_r].
  - unfold on_message, try_catch, bind, liftR, console_error, ret.
    rewrite Hparse. eexists. split; [reflexivity |]. simpl.
    repeat split; auto; first [lia | now left | exists []; now rewrite app_nil_r].
Qed.

(* ================================================================= *)
(** * Properties of the client library *)

(** X18.  The token estimate of a text is the least whole number of
    four-character groups that holds it: four times the estimate is at
    least the length and exceeds it by less than four.  It is 0 exactly
    for the empty text, and a longer text never has a smaller estimate. *)
Theorem estimateTokenCount_bounds (text : string) :
  let estimate := estimateTokenCount text in
  let len := Z.of_nat (String.length text) in
  len <= 4 * estimate < len + 4
  /\ (estimate = 0 <-> text = EmptyString)
  /\ forall other,
       (String.length text <= String.length other)%nat ->
       estimate <= estimateTokenCount other.
Proof.
  unfold estimateTokenCount, Math_ceil_div. cbv zeta.
  assert (Hdiv : forall n, 0 <= n ->
            n <= 4 * - (- n / 4) < n + 4).
  { intros n Hn.
    pose proof (Z.div_mod (- n) 4 ltac:(lia)) as Hdm.
    pose proof (Z.mod_pos_bound (- n) 4 ltac:(lia)) as Hmod. lia. }
  pose proof (Hdiv (Z.of_nat (String.length text)) ltac:(lia)) as Ht.
  split; [exact Ht |]. split.
  - split.
    + intros H0. destruct text; [reflexivity |]. simpl String.length in *. lia.
    + intros ->. reflexivity.
  - intros other Hle.
    pose proof (Hdiv (Z.of_nat (String.length other)) ltac:(lia)) as Ho. lia.
Qed.









(** ** The catalogue of models *)

Lemma find_some_in {A : Type} (f : A -> bool) (l : list A) (x : A) :
  find f l = Some x -> In x l /\ f x = true.
Proof. apply find_some. Qed.

(** X21.  Looking a model up by identifier gives a model of the catalogue
    with that identifier, and listing by provider gives exactly the
    catalogue's models of that provider.  Every model of the catalogue is
    found under its own identifier and listed under its own provider, and
    the default model is the one named gpt-5.  Against the relay: the
    models whose provider is openai or anthropic select that provider
    there, and the one google model selects none, so that a chat frame
    naming it is answered [Model not supported] without any provider
    being called. *)
Theorem catalogue_against_relay :
  (forall modelId model,
     getModelById modelId = Some model ->
     In model AVAILABLE_MODELS /\ AIModel.id model = modelId)
  /\ (forall provider model,
        In model (getModelsByProvider provider)
        <-> In model AVAILABLE_MODELS /\ AIModel.provider model = provider)
  /\ Forall
       (fun model =>
          getModelById (AIModel.id model) = Some model
          /\ In model (getModelsByProvider (AIModel.provider model))
          /\ provider_for (AIModel.id model)
             = (if String.eqb (AIModel.provider model) "openai"
                then Some OpenAI
                else if String.eqb (AIModel.provider model) "anthropic"
                     then Some Anthropic
                     else None)
          /\ (AIModel.provider model = "google" ->
              forall P content w,
                ai_response P (Some (JStr (AIModel.id model))) content w
                = (Ok "Model not supported", w)))
       AVAILABLE_MODELS
  /\ getDefaultModel = getModelById "gpt-5".
Proof.
  split; [| split; [| split]].
  - intros modelId model H. apply find_some_in in H as [Hin Heq].
    split; [exact Hin | now apply String.eqb_eq].
  - intros provider model. unfold getModelsByProvider.
    rewrite filter_In, String.eqb_eq. reflexivity.
  - assert (Hlist :
      forall model, In model AVAILABLE_MODELS ->
        In model (getModelsByProvider (AIModel.provider model))).
    { intros model Hin. unfold getModelsByProvider.
      apply filter_In. split; [exact Hin | apply String.eqb_refl]. }
    repeat apply Forall_cons; try apply Forall_nil;
      (split; [reflexivity |]);
      (split; [apply Hlist; simpl; tauto |]);
      (split; [reflexivity |]);
      try (intros Hp; discriminate Hp).
    intros _ P content w. now rewrite ai_response_by_prefix.
  - reflexivity.
Qed.

(** The google model of the catalogue is found under its identifier, and
    the relay answers a frame naming it without calling a provider. *)
Lemma catalogue_against_relay_witness :
  exists model,
    getModelById "gemini-pro" = Some model
    /\ AIModel.provider model = "google"
    /\ forall P content w,
         ai_response P (Some (JStr "gemini-pro")) content w
         = (Ok "Model not supported", w).
Proof.
  destruct catalogue_against_relay as (_ & Hlist & Hall & _).
  destruct (getModelsByProvider "google") as [| model rest] eqn:E;
    [discriminate E |].
  assert (Hin : In model (getModelsByProvider "google"))
    by (rewrite E; now left).
  apply Hlist in Hin as [Hin Hprovider].
  injection E as <- _.
  exists (AIModel.mk "gemini-pro" "Gemini Pro" "google"
            "Google's multimodal AI model" 32000 true true).
  rewrite Forall_forall in Hall.
  destruct (Hall _ Hin) as (Hfound & _ & _ & Hrelay).
  split; [exact Hfound |]. split; [reflexivity |].
  exact (Hrelay eq_refl).
Defined.

(** ** The chat hook *)

Lemma substring_all (n : nat) (s : string) :
  (String.length s <= n)%nat -> substring 0 n s = s.
Proof.
  revert n. induction s as [| c s IH]; intros [| n] H; simpl in *;
    try reflexivity; try lia.
  f_equal. apply IH. lia.
Qed.

Lemma substring_length (n : nat) (s : string) :
  String.length (substring 0 n s) = Nat.min n (String.length s).
Proof.
  revert n. induction s as [| c s IH]; intros [| n]; simpl;
    try reflexivity.
  now rewrite IH.
Qed.

Lemma string_length_append (s t : string) :
  String.length (s ++ t) = (String.length s + String.length t)%nat.
Proof. induction s as [| c s IH]; simpl; [reflexivity | now rewrite IH]. Qed.

Lemma string_append_empty (s : string) : (s ++ EmptyString)%string = s.
Proof. induction s as [| c s IH]; simpl; [reflexivity | now rewrite IH]. Qed.

(** X22.  The title given to a conversation opened by a first message is
    the message itself when it has at most 50 characters, and otherwise
    its first 50 characters followed by three dots: it never has more
    than 53 characters, and the message's first 50 characters always
    begin it. *)
Theorem conversation_title_bounds (content : string) :
  (String.length (conversation_title content) <= 53)%nat
  /\ prefix (substring 0 50 content) (conversation_title content) = true
  /\ ((String.length content <= 50)%nat ->
      conversation_title content = content)
  /\ ((50 < String.length content)%nat ->
      String.length (conversation_title content) = 53%nat
      /\ substring 50 3 (conversation_title content) = "...").
Proof.
  unfold conversation_title.
  assert (Hpre : forall s t : string, prefix s (s ++ t) = true).
  { intros s t. induction s as [| c s IH]; simpl.
    - now destruct t.
    - destruct (ascii_dec c c) as [_ | N]; [exact IH | now elim N]. }
  assert (Hat : forall (s t : string) (n : nat),
            String.length s = n ->
            substring n (String.length t) (s ++ t) = t).
  { intros s t. induction s as [| c s IH]; intros n Hn; simpl in *.
    - subst n. apply substring_all. lia.
    - destruct n as [| n]; [discriminate Hn |]. apply IH. lia. }
  split; [| split; [apply Hpre | split]].
  - rewrite string_length_append, substring_length.
    destruct (50 <? String.length content)%nat; cbn [String.length]; lia.
  - intros H. apply Nat.ltb_ge in H as Hb. rewrite Hb.
    rewrite string_append_empty. now apply substring_all.
  - intros H. apply Nat.ltb_lt in H as Hb. rewrite Hb. split.
    + rewrite string_length_append, substring_length.
      cbn [String.length]. lia.
    + apply (Hat (substring 0 50 content) "..." 50%nat).
      rewrite substring_length. lia.
Qed.

Lemma conversation_title_bounds_witness :
  conversation_title "What is a monad?" = "What is a monad?"
  /\ String.length
       (conversation_title
          "Explain, step by step, how the insertion sort of a linked list works")
     = 53%nat.
Proof.
  split.
  - apply (conversation_title_bounds "What is a monad?"). simpl. lia.
  - apply (conversation_title_bounds
             "Explain, step by step, how the insertion sort of a linked list works").
    simpl. lia.
Defined.

(** X23.  Sending from the chat hook.  A frame goes out on the socket
    exactly when the message is not blank, a conversation is selected,
    the connection status is open and the socket is open; it is then the
    one frame of type [chat_message] with role [user], the selected
    conversation and model, and the trimmed message.  A conversation is
    created exactly when the message is not blank and none is selected,
    titled after the untrimmed message; nothing is sent in that call.  A
    blank message does nothing at all, and every other call that neither
    sends nor creates successfully ends with the [Failed to Send] toast. *)
Theorem sendMessage_guards
    (state : ChatState) (socket_open : bool) (creation : result unit)
    (content : string) (attachments : option (list json)) :
  let effects := sendMessage state socket_open creation content attachments in
  let selected :=
    match currentConversationId state with
    | Some conversationId => negb (String.eqb conversationId EmptyString)
    | None => false
    end in
  (forall frame,
     In (SocketSend frame) effects
     <-> trim content <> EmptyString
         /\ connectionStatus state = Open /\ socket_open = true
         /\ exists conversationId,
              currentConversationId state = Some conversationId
              /\ conversationId <> EmptyString
              /\ frame
                 = chat_frame conversationId content (selectedModel state)
                     attachments)
  /\ (List.length (filter is_socket_send effects) <= 1)%nat
  /\ (forall title model,
        In (MutateAsync title model) effects
        <-> trim content <> EmptyString /\ selected = false
            /\ title = conversation_title content
            /\ model = selectedModel state)
  /\ (trim content = EmptyString -> effects = [])
  /\ (trim content <> EmptyString ->
      effects
      = [SocketSend
           (chat_frame
              (match currentConversationId state with
               | Some conversationId => conversationId
               | None => EmptyString
               end) content (selectedModel state) attachments);
         ScrollToBottom]
      \/ effects
         = [MutateAsync (conversation_title content) (selectedModel state)]
      \/ exists before,
           effects
           = (before
              ++ [Toast "Failed to Send"
                    "Could not send your message. Please try again."])%list).
Proof.
  unfold sendMessage.
  destruct (String.eqb (trim content) EmptyString) eqn:Hblank.
  - apply String.eqb_eq in Hblank. cbv zeta.
    split; [| split; [| split; [| split]]].
    + intros frame. split; [intros [] | intros (H & _); now elim H].
    + simpl. lia.
    + intros title model. split; [intros [] | intros (H & _); now elim H].
    + reflexivity.
    + intros H. now elim H.
  - apply String.eqb_neq in Hblank.
    destruct state as [[conversationId |] model status]; simpl.
    + destruct (String.eqb conversationId EmptyString) eqn:Hid; simpl.
      * apply String.eqb_eq in Hid. subst conversationId.
        split; [| split; [| split; [| split]]].
        -- intros frame. split.
           ++ intros [H | H]; [discriminate H |].
              destruct creation; simpl in H;
                [destruct H
                | destruct H as [H | [H | [H | []]]]; discriminate H].
           ++ intros (_ & _ & _ & c & Hc & Hne & _).
              injection Hc as <-. now elim Hne.
        -- destruct creation; simpl; lia.
        -- intros title m. split.
           ++ intros [H | H].
              ** injection H as <- <-. now repeat split.
              ** destruct creation; simpl in H;
                   [destruct H
                   | destruct H as [H | [H | [H | []]]]; discriminate H].
           ++ intros (_ & _ & -> & ->). now left.
        -- intros H. now elim Hblank.
        -- intros _. destruct creation as [u | e].
           ++ right. now left.
           ++ right. right.
              exists [MutateAsync (conversation_title content) model;
                      creation_failed;
                      ConsoleError "Failed to send message:" e].
              reflexivity.
      * apply String.eqb_neq in Hid.
        destruct status, socket_open; simpl;
          (split; [| split; [| split; [| split]]]);
          try (simpl; lia);
          try (intros H; now elim Hblank);
          try (intros title m; split;
               [intros H; repeat destruct H as [H | H]; try discriminate H;
                destruct H
               | intros (_ & H & _); discriminate H]);
          try (intros frame; split;
               [intros H; repeat destruct H as [H | H]; try discriminate H;
                try destruct H
               | intros (_ & Hs & Ho & _);
                 first [discriminate Hs | discriminate Ho]]);
          try (intros _; right; right; eexists [_]; reflexivity);
          try (intros _; right; right; eexists [_; _]; reflexivity).
        -- intros frame. split.
           ++ intros [H | [H | []]]; [| discriminate H].
              injection H as <-.
              repeat split; try assumption.
              exists conversationId. now repeat split.
           ++ intros (_ & _ & _ & c & Hc & _ & ->).
              injection Hc as <-. now left.
        -- intros _. now left.
    + split; [| split; [| split; [| split]]].
      * intros frame. split.
        -- intros [H | H]; [discriminate H |].
           destruct creation; simpl in H;
             [destruct H
             | destruct H as [H | [H | [H | []]]]; discriminate H].
        -- intros (_ & _ & _ & c & Hc & _). discriminate Hc.
      * destruct creation; simpl; lia.
      * intros title m. split.
        -- intros [H | H].
           ++ injection H as <- <-. now repeat split.
           ++ destruct creation; simpl in H;
                [destruct H
                | destruct H as [H | [H | [H | []]]]; discriminate H].
        -- intros (_ & _ & -> & ->). now left.
      * intros H. now elim Hblank.
      * intros _. destruct creation as [u | e].
        -- right. now left.
        -- right. right.
           exists [MutateAsync (conversation_title content) model;
                   creation_failed;
                   ConsoleError "Failed to send message:" e].
           reflexivity.
Qed.

(** X24.  The hook's frame, once received by the relay.  When the text
    received parses to the frame the hook built, the relay stores a user
    message for the hook's conversation whose content is the trimmed
    message, with null attachments whatever the hook attached; the
    provider is chosen by the hook's selected model and is asked about
    the trimmed message, and a model that selects no provider leaves the
    providers uncalled. *)
Theorem hook_frame_is_relayed
    (P : Platform) (w : World) (data conversationId content model : string)
    (attachments : option (list json)) :
  JSON_parse P data
  = Ok (chat_frame conversationId content model attachments) ->
  randomUUID P (uuids_drawn w) <> randomUUID P (S (uuids_drawn w)) ->
  let id1 := randomUUID P (uuids_drawn w) in
  exists w',
    on_message P data w = (Ok tt, w')
    /\ map_get id1 (messages (storage w'))
       = Some
           (Message.mk id1 (Some (JStr conversationId)) "user"
              (Some (JStr (trim content))) (Some JNull)
              (Some (clock P (dates_taken w))))
    /\ provider_calls w'
       = match provider_for model with
         | Some p =>
             (provider_calls w
              ++ [mkCall p (Some (JStr (trim content)))])%list
         | None => provider_calls w
         end.
Proof.
  intros Hparse Hfresh id1. unfold chat_frame in Hparse.
  rewrite (on_message_chat_frame P w data Hparse eq_refl).
  cbn [assoc String.eqb Ascii.eqb Bool.eqb].
  rewrite ai_response_by_prefix.
  destruct (provider_for model) as [p |].
  - cbn [provider_calls].
    destruct (provider_reply P _ _) as [text | e];
      eexists; (split; [reflexivity |]);
      cbn [storage messages with_messages with_call provider_calls
           uuids_drawn Message.id];
      (split; [| reflexivity]).
    + rewrite map_get_set_other by exact Hfresh. apply map_get_set_same.
    + apply map_get_set_same.
  - eexists. split; [reflexivity |].
    cbn [storage messages with_messages provider_calls uuids_drawn
         Message.id].
    split; [| reflexivity].
    rewrite map_get_set_other by exact Hfresh. apply map_get_set_same.
Qed.

(** A message typed with blanks around it, sent with an attachment to a
    platform that parses the text received to the hook's frame. *)
Lemma hook_frame_is_relayed_witness :
  let frame := chat_frame "c1" "  hello " "gpt-5" (Some [JStr "file"]) in
  let P :=
    mkPlatform (randomUUID sample_platform) (clock sample_platform)
      (fun _ => Ok frame) (provider_reply sample_platform) in
  exists w',
    on_message P "frame" (empty_world sample_store) = (Ok tt, w')
    /\ List.map (fun m => (Message.content m, Message.attachments m))
         (map_values (messages (storage w')))
       = [(Some (JStr "hello"), Some JNull);
          (Some (JStr "not json"), Some JNull)]
    /\ provider_calls w' = [mkCall OpenAI (Some (JStr "hello"))].
Proof.
  intros frame P.
  destruct
    (@hook_frame_is_relayed P (empty_world sample_store) "frame" "c1"
       "  hello " "gpt-5" (Some [JStr "file"]) eq_refl
       ltac:(vm_compute; discriminate))
    as (w' & Hrun & _ & Hcalls).
  exists w'. split; [exact Hrun |].
  split; [| exact Hcalls].
  vm_compute in Hrun. injection Hrun as <-. reflexivity.
Defined.
